(** * ComfyUI-OpenAI-Ask: the response-normalisation pipeline of
    [node_openai_ask.py] ([OpenAIAskNode]).

    A Python [str] is a sequence of Unicode code points, so a text is a
    list of code points ([N]).  The regular expressions of the node are
    terms of a small regex syntax that are run by a backtracking matcher
    with the priorities of Python's [re] (greedy repetition, leftmost-first
    alternation, leftmost match for [search], all non-overlapping matches
    for [sub]). *)

From Stdlib Require Import List NArith ZArith Bool String Ascii Lia Arith.
From Stdlib Require Import DecimalString.
Import ListNotations.
Set Warnings "-register-all".

Local Open Scope N_scope.
Local Open Scope list_scope.

(** ** Texts *)

Definition cp := N.
Definition text := list cp.

Definition of_string (s : string) : text :=
  map N_of_ascii (list_ascii_of_string s).

Definition LF : cp := 10.
Definition CR : cp := 13.
Definition COLON : cp := 58.          (* ':' *)
Definition FWCOLON : cp := 65306.     (* U+FF1A, the full-width colon *)

(** [str.isspace] / [\s] on a [str] pattern: the Unicode white space set. *)
Definition isspace (c : cp) : bool :=
  ((9 <=? c) && (c <=? 13)) || ((28 <=? c) && (c <=? 32))
  || (c =? 133) || (c =? 160) || (c =? 5760)
  || ((8192 <=? c) && (c <=? 8202))
  || (c =? 8232) || (c =? 8233) || (c =? 8239) || (c =? 8287) || (c =? 12288).

Definition is_ascii_alnum (c : cp) : bool :=
  ((48 <=? c) && (c <=? 57)) || ((65 <=? c) && (c <=? 90))
  || ((97 <=? c) && (c <=? 122)).

(** Simple lower-casing as [re] applies it under [IGNORECASE], on the code
    points whose lower case is an ASCII letter: A-Z, U+0130 and U+212A. *)
Definition sre_lower (c : cp) : cp :=
  if (65 <=? c) && (c <=? 90) then c + 32
  else if c =? 304 then 105
  else if c =? 8490 then 107
  else c.

(** The extra equivalences of [re] for a lower-cased pattern character:
    'i' also matches U+0131 and 's' also matches U+017F. *)
Definition extra_case (lo c : cp) : bool :=
  ((lo =? 105) && (c =? 305)) || ((lo =? 115) && (c =? 383)).

(** A literal pattern character under [IGNORECASE]. *)
Definition ci (a : cp) (c : cp) : bool :=
  let lo := sre_lower a in (sre_lower c =? lo) || extra_case lo c.

Definition is_colon (c : cp) : bool := (c =? COLON) || (c =? FWCOLON).
Definition is_lf (c : cp) : bool := c =? LF.

(** [str.replace("\r\n", "\n")] *)
Fixpoint replace_crlf (s : text) : text :=
  match s with
  | [] => []
  | c :: tl =>
      match tl with
      | d :: tl' =>
          if (c =? CR) && (d =? LF) then LF :: replace_crlf tl'
          else c :: replace_crlf tl
      | [] => [c]
      end
  end.

Fixpoint lstrip (s : text) : text :=
  match s with
  | c :: tl => if isspace c then lstrip tl else s
  | [] => []
  end.

Definition rstrip (s : text) : text := rev (lstrip (rev s)).
Definition strip (s : text) : text := rstrip (lstrip s).

(** ** Regular expressions *)

Inductive regex : Type :=
| Eps                                   (* the empty pattern *)
| Cls (p : cp -> bool)                  (* one character of a class *)
| Star (p : cp -> bool)                 (* c*, greedy, c a class *)
| Opt (p : cp -> bool)                  (* c?, greedy, c a class *)
| Bos                                   (* ^ without MULTILINE *)
| Bol                                   (* ^ with MULTILINE *)
| Wb                                    (* \b *)
| Cat (r1 r2 : regex)
| Alt (r1 r2 : regex).

Fixpoint lit (l : text) : regex :=
  match l with
  | [] => Eps
  | a :: tl => Cat (Cls (ci a)) (lit tl)
  end.

Definition word (s : string) : regex := lit (of_string s).

Fixpoint alts (l : list regex) : regex :=
  match l with
  | [] => Cls (fun _ => false)
  | [r] => r
  | r :: tl => Alt r (alts tl)
  end.

Fixpoint cats (l : list regex) : regex :=
  match l with
  | [] => Eps
  | r :: tl => Cat r (cats tl)
  end.

Section Matcher.

(** [str.isalnum] on the code points above U+007F comes from the Unicode
    data base of the Python runtime; it is a parameter here. *)
Variable uni_alnum : cp -> bool.

(** [\w] on a [str] pattern. *)
Definition is_word (c : cp) : bool :=
  if c <? 128 then is_ascii_alnum c || (c =? 95) else uni_alnum c.

Definition opt_word (o : option cp) : bool :=
  match o with Some c => is_word c | None => false end.

Definition head_word (s : text) : bool :=
  match s with c :: _ => is_word c | [] => false end.

(** A continuation receives the character before the current position
    and the text that is left. *)
Definition cont := option cp -> text -> option text.

Fixpoint star_loop (p : cp -> bool) (prev : option cp) (s : text)
         (k : cont) : option text :=
  match s with
  | c :: tl =>
      if p c then
        match star_loop p (Some c) tl k with
        | Some r => Some r
        | None => k prev s
        end
      else k prev s
  | [] => k prev s
  end.

Fixpoint rmatch (r : regex) (prev : option cp) (s : text) (k : cont)
  : option text :=
  match r with
  | Eps => k prev s
  | Cls p =>
      match s with
      | c :: tl => if p c then k (Some c) tl else None
      | [] => None
      end
  | Star p => star_loop p prev s k
  | Opt p =>
      match s with
      | c :: tl =>
          if p c then
            match k (Some c) tl with
            | Some r => Some r
            | None => k prev s
            end
          else k prev s
      | [] => k prev s
      end
  | Bos => match prev with None => k prev s | Some _ => None end
  | Bol =>
      match prev with
      | None => k prev s
      | Some c => if is_lf c then k prev s else None
      end
  | Wb => if xorb (opt_word prev) (head_word s) then k prev s else None
  | Cat r1 r2 => rmatch r1 prev s (fun p' s' => rmatch r2 p' s' k)
  | Alt r1 r2 =>
      match rmatch r1 prev s k with
      | Some r => Some r
      | None => rmatch r2 prev s k
      end
  end.

Definition accept : cont := fun _ rest => Some rest.

(** The match that starts at the current position: what is left after it. *)
Definition match_here (r : regex) (prev : option cp) (s : text)
  : option text := rmatch r prev s accept.

(** [re.search]: the offsets [(m.start(), m.end())] of the leftmost match. *)
Fixpoint search_from (r : regex) (prev : option cp) (s : text) (i : nat)
  : option (nat * nat) :=
  match match_here r prev s with
  | Some rest => Some (i, (i + (List.length s - List.length rest))%nat)
  | None =>
      match s with
      | [] => None
      | c :: tl => search_from r (Some c) tl (S i)
      end
  end.

Definition search (r : regex) (s : text) : option (nat * nat) :=
  search_from r None s 0.

(** [re.sub(r, '', s)]: every non-overlapping match is deleted, scanning
    from the left; [skip] counts the characters of the current match that
    are still to be dropped. *)
Fixpoint sub_from (r : regex) (prev : option cp) (s : text) (skip : nat)
  : text :=
  match s with
  | [] => []
  | c :: tl =>
      match skip with
      | S n => sub_from r (Some c) tl n
      | O =>
          match match_here r prev s with
          | Some rest =>
              match (List.length s - List.length rest)%nat with
              | S n => sub_from r (Some c) tl n
              | O => c :: sub_from r (Some c) tl 0
              end
          | None => c :: sub_from r (Some c) tl 0
          end
      end
  end.

Definition sub (r : regex) (s : text) : text := sub_from r None s 0.

End Matcher.

(** ** The label patterns of the node *)

Definition zh_prompt : text := [25552; 31034; 35789].   (* U+63D0 U+793A U+8BCD *)
Definition zh_positive : text := [27491; 21521].        (* U+6B63 U+5411 *)
Definition zh_negative : text := [36127; 21521].        (* U+8D1F U+5411 *)
Definition zh_negside : text := [36127; 38754].         (* U+8D1F U+9762 *)
Definition zh_avoid : text := [36991; 20813].           (* U+907F U+514D *)
Definition zh_donot : text := [19981; 35201].           (* U+4E0D U+8981 *)
Definition zh_user : text := [29992; 25143].            (* U+7528 U+6237 *)

(** [\s*[:：]\s*] *)
Definition colon_tail : regex :=
  cats [Star isspace; Cls is_colon; Star isspace].

(** [(prompt|positive|提示词|正向)] *)
Definition prompt_labels : regex :=
  alts [word "prompt"; word "positive"; lit zh_prompt; lit zh_positive].

(** [(?is)(?:^|\n)\s*(prompt|positive|提示词|正向)\s*[:：]\s*] *)
Definition prompt_label_re : regex :=
  cats [alts [Bos; Cls is_lf]; Star isspace; prompt_labels; colon_tail].

(** [(negative\s*prompt|negative|neg|avoid|disallow|do\s*not|负向|负面|避免|不要)] *)
Definition neg_labels : regex :=
  alts [cats [word "negative"; Star isspace; word "prompt"];
        word "negative"; word "neg";
        word "avoid"; word "disallow";
        cats [word "do"; Star isspace; word "not"];
        lit zh_negative; lit zh_negside; lit zh_avoid; lit zh_donot].

(** [(?im)\b(...)\s*[:：]\s*] *)
Definition neg_re : regex := cats [Wb; neg_labels; colon_tail].

(** [(?im)^\s*(positive|prompt|提示词|正向)\s*[:：]\s*] *)
Definition pos_cleanup_re : regex :=
  cats [Bol; Star isspace;
        alts [word "positive"; word "prompt"; lit zh_prompt; lit zh_positive];
        colon_tail].

(** [(?im)^\s*(negative\s*prompt|...|不要)\s*[:：]\s*] *)
Definition neg_cleanup_re : regex :=
  cats [Bol; Star isspace; neg_labels; colon_tail].

(** [^\s*(用户|User)\s*[:：]?\s*\n?] with [re.IGNORECASE] *)
Definition user_re : regex :=
  cats [Bos; Star isspace; alts [lit zh_user; word "User"];
        Star isspace; Opt is_colon; Star isspace; Opt is_lf].

(** ** The text functions of [OpenAIAskNode] *)

Section Node.

Variable uni_alnum : cp -> bool.

(** The argument is a [str] here, so the [isinstance] guard is not taken. *)
Definition _sanitize_reasoning_text (t0 : text) : text :=
  let t := replace_crlf t0 in
  let t := sub uni_alnum user_re t in
  strip t.

Definition _split_positive_negative (t0 : text) : text * text :=
  match t0 with
  | [] => ([], [])
  | _ =>
      let s := strip (replace_crlf t0) in
      (* 1) cut everything before the prompt label *)
      let s :=
        match search uni_alnum prompt_label_re s with
        | Some (_, e) => lstrip (skipn e s)
        | None => s
        end in
      (* 2) locate the negative label and split *)
      let '(pos, neg) :=
        match search uni_alnum neg_re s with
        | Some (b, e) => (strip (firstn b s), strip (skipn e s))
        | None => (strip s, [])
        end in
      (* 3) clean residual labels *)
      let pos := strip (sub uni_alnum pos_cleanup_re pos) in
      let neg := strip (sub uni_alnum neg_cleanup_re neg) in
      (pos, neg)
  end.

(** The source selection of [ask], on the three extracted strings. *)
Definition nonempty (t : text) : bool :=
  match t with [] => false | _ => true end.

Definition py_or (a b : text) : text := if nonempty a then a else b.

Definition select_source (content_source : string)
           (content reasoning fallback : text) : text :=
  if String.eqb content_source "content_only" then
    if nonempty content then content else py_or fallback reasoning
  else if String.eqb content_source "reasoning_only" then
    if nonempty reasoning then reasoning else py_or fallback content
  else
    if nonempty content then content
    else if nonempty reasoning then reasoning else fallback.

End Node.

(** ** Decoded JSON values and the content extractor *)

Inductive json : Type :=
| JNull
| JBool (b : bool)
| JInt (n : Z)
| JFloat (m e : Z)               (* m * 10^e *)
| JStr (s : text)
| JArr (l : list json)
| JObj (d : list (text * json)).

Fixpoint text_eqb (a b : text) : bool :=
  match a, b with
  | [], [] => true
  | x :: a', y :: b' => (x =? y) && text_eqb a' b'
  | _, _ => false
  end.

(** [d.get(key)] on a dict; [None] of Python is [JNull]. *)
Fixpoint dict_find (key : text) (d : list (text * json)) : option json :=
  match d with
  | [] => None
  | (k, v) :: tl => if text_eqb k key then Some v else dict_find key tl
  end.

Definition dict_get (key : string) (d : list (text * json)) : json :=
  match dict_find (of_string key) d with Some v => v | None => JNull end.

(** Truth value of a decoded value. *)
Definition truthy (v : json) : bool :=
  match v with
  | JNull => false
  | JBool b => b
  | JInt n => negb (Z.eqb n 0)
  | JFloat m _ => negb (Z.eqb m 0)
  | JStr s => nonempty s
  | JArr l => match l with [] => false | _ => true end
  | JObj d => match d with [] => false | _ => true end
  end.

Definition jor (a b : json) : json := if truthy a then a else b.

(** ["\n".join(parts)] *)
Fixpoint join_lf (parts : list text) : text :=
  match parts with
  | [] => []
  | [p] => p
  | p :: tl => p ++ LF :: join_lf tl
  end.

(** The exceptions the parsing stage of [ask] can meet. *)
Inductive exn : Type :=
| JSONDecodeError | AttributeError | TypeError | KeyError | StrError.

Definition str_int (z : Z) : text :=
  of_string (NilZero.string_of_int (Z.to_int z)).

Section Ask.

Variable uni_alnum : cp -> bool.
(** [str(value)] on a decoded value; [None] when it raises. *)
Variable py_str : json -> option text.
(** [json.dumps(data, ensure_ascii=False, indent=2)] *)
Variable json_dumps : json -> text.
(** [str(e)] of a caught exception. *)
Variable exn_str : exn -> text.

(** The contribution of one block of a list content. *)
Definition block_part (blk : json) : list text :=
  match blk with
  | JObj d =>
      let t := jor (jor (dict_get "text" d) (dict_get "content" d)) (JStr []) in
      match t with
      | JStr s => if nonempty (strip s) then [s] else []
      | _ => []
      end
  | _ => []
  end.

Definition _extract_text_from_content (value : json) : text :=
  match value with
  | JNull => []
  | JStr s => s
  | JArr l => strip (join_lf (flat_map block_part l))
  | _ => match py_str value with Some s => s | None => [] end
  end.

Record response : Type := {
  status_code : Z;
  resp_text : text;                 (* resp.text *)
  resp_json : exn + json            (* resp.json(), or what it raises *)
}.

Definition outputs : Type := (text * text * text * text)%type.

(** [x.get(...)] where [x] must be a dict. *)
Definition as_dict (v : json) : exn + list (text * json) :=
  match v with JObj d => inr d | _ => inl AttributeError end.

(** [choices[0]] for a truthy [choices]. *)
Definition first_of (choices : json) : exn + json :=
  match choices with
  | JArr (c :: _) => inr c
  | JStr (c :: _) => inr (JStr [c])
  | JObj _ => inl KeyError
  | _ => inl TypeError
  end.

Definition bind {A B : Type} (m : exn + A) (f : A -> exn + B) : exn + B :=
  match m with inl e => inl e | inr a => f a end.

Notation "x <- m ;; k" := (bind m (fun x => k))
  (at level 61, m at next level, right associativity).

Definition latency (elapsed : text) : text :=
  [LF; LF] ++ of_string "[latency: " ++ elapsed ++ of_string "]".

(** The body of the [try] of step 6.  Every point that can raise comes
    before [positive] and [negative] are assigned. *)
Definition parse_body (content_source : string) (elapsed : text)
           (resp : response) : exn + outputs :=
  data <- resp_json resp ;;
  let raw_json_text := json_dumps data in
  if Z.leb 400 (status_code resp) then
    match py_str data with
    | Some d =>
        inr ([], [],
             of_string "[OpenAIAsk] HTTP " ++ str_int (status_code resp)
               ++ of_string ": " ++ d,
             raw_json_text)
    | None => inl StrError
    end
  else
    top <- as_dict data ;;
    let choices :=
      match dict_find (of_string "choices") top with
      | Some v => v
      | None => JArr []
      end in
    res <-
      (if truthy choices then
         c0 <- first_of choices ;;
         c0d <- as_dict c0 ;;
         let msg :=
           jor (match dict_find (of_string "message") c0d with
                | Some v => v
                | None => JObj []
                end) (JObj []) in
         msgd <- as_dict msg ;;
         let content := _extract_text_from_content (dict_get "content" msgd) in
         let reasoning :=
           _extract_text_from_content (dict_get "reasoning_content" msgd) in
         let fallback := _extract_text_from_content (dict_get "text" c0d) in
         let out_src := select_source content_source content reasoning fallback in
         let '(positive, negative) := _split_positive_negative uni_alnum out_src in
         inr (positive, negative, _sanitize_reasoning_text uni_alnum out_src)
       else inr ([], [], [])) ;;
    let '(positive, negative, answer_text) := res in
    let answer_text :=
      if nonempty answer_text then answer_text
      else of_string "[OpenAIAsk] Empty content from server." in
    inr (positive, negative, answer_text ++ latency elapsed, raw_json_text).

(** The answer text of the [except] branch. *)
Definition parse_error_text (e : exn) (resp : response) : text :=
  of_string "[OpenAIAsk] parse error: " ++ exn_str e
    ++ LF :: of_string "HTTP " ++ str_int (status_code resp)
    ++ of_string " Body: " ++ resp_text resp.

(** Step 6 of [ask]: the four outputs for a received response. *)
Definition ask_parse (content_source : string) (elapsed : text)
           (resp : response) : outputs :=
  match parse_body content_source elapsed resp with
  | inr out => out
  | inl e => ([], [], parse_error_text e resp, resp_text resp)
  end.

End Ask.

(** ** What a match consumes

    [pm r prev s prev' s']: the pattern [r] can match from the position
    with [prev] before it and [s] after it up to the position with [prev']
    before it and [s'] after it.  The matcher only ever returns such
    matches. *)

Section MatchRelationDef.

Variable uni_alnum : cp -> bool.

Inductive pm : regex -> option cp -> text -> option cp -> text -> Prop :=
| pm_eps prev s : pm Eps prev s prev s
| pm_cls p prev c tl : p c = true -> pm (Cls p) prev (c :: tl) (Some c) tl
| pm_star_stop p prev s : pm (Star p) prev s prev s
| pm_star_more p prev c tl prev' s' :
    p c = true -> pm (Star p) (Some c) tl prev' s' ->
    pm (Star p) prev (c :: tl) prev' s'
| pm_opt_skip p prev s : pm (Opt p) prev s prev s
| pm_opt_take p prev c tl : p c = true -> pm (Opt p) prev (c :: tl) (Some c) tl
| pm_bos s : pm Bos None s None s
| pm_bol_start s : pm Bol None s None s
| pm_bol_line c s : is_lf c = true -> pm Bol (Some c) s (Some c) s
| pm_wb prev s :
    xorb (opt_word uni_alnum prev) (head_word uni_alnum s) = true ->
    pm Wb prev s prev s
| pm_cat r1 r2 prev s p1 s1 p2 s2 :
    pm r1 prev s p1 s1 -> pm r2 p1 s1 p2 s2 -> pm (Cat r1 r2) prev s p2 s2
| pm_alt_l r1 r2 prev s p' s' : pm r1 prev s p' s' -> pm (Alt r1 r2) prev s p' s'
| pm_alt_r r1 r2 prev s p' s' : pm r2 prev s p' s' -> pm (Alt r1 r2) prev s p' s'.

(** The character before the position reached after reading [w]. *)
Definition last_opt (prev : option cp) (w : text) : option cp :=
  match rev w with [] => prev | c :: _ => Some c end.

(** No match of [r] starts anywhere in [s], whatever stands before. *)
Definition matchless (r : regex) (s : text) : Prop :=
  forall prev a b, s = a ++ b -> match_here uni_alnum r prev b = None.

End MatchRelationDef.

(** ** Reference definitions the properties are stated with *)

(** No colon, ASCII or full-width, occurs in the text. *)
Definition colon_free (s : text) : Prop := existsb is_colon s = false.

(** Every match of [r] reads a colon. *)
Definition reads_colon (uni_alnum : cp -> bool) (r : regex) : Prop :=
  forall prev s prev' s',
    pm uni_alnum r prev s prev' s' ->
    exists w, s = w ++ s' /\ existsb is_colon w = true.



(** The text [w] is an instance of the label [l], case-insensitively. *)
Fixpoint lit_matches (l w : text) : bool :=
  match l, w with
  | [], [] => true
  | a :: l', c :: w' => ci a c && lit_matches l' w'
  | _, _ => false
  end.

(** The words a positive label is one of, and the words a negative label
    ends with. *)
Definition prompt_label_words : list text :=
  [of_string "prompt"; of_string "positive"; zh_prompt; zh_positive].

Definition neg_label_ends : list text :=
  [of_string "prompt"; of_string "negative"; of_string "neg";
   of_string "avoid"; of_string "disallow"; of_string "not";
   zh_negative; zh_negside; zh_avoid; zh_donot].

(** The text does not begin with white space. *)
Definition starts_clean (s : text) : Prop :=
  match s with [] => True | c :: _ => isspace c = false end.

(** The first non-empty string of a list, the empty string when none is. *)
Fixpoint first_nonempty (l : list text) : text :=
  match l with
  | [] => []
  | t :: tl => if nonempty t then t else first_nonempty tl
  end.

Definition has_nonspace (s : text) : bool :=
  existsb (fun c => negb (isspace c)) s.

Definition first_truthy (a b : json) : option json :=
  if truthy a then Some a else if truthy b then Some b else None.

(** What a block contributes: the first truthy value among its [text] and
    [content] fields, when that value is a string with a character that is
    not white space. *)
Definition block_text (blk : json) : list text :=
  match blk with
  | JObj d =>
      match first_truthy (dict_get "text" d) (dict_get "content" d) with
      | Some (JStr s) => if has_nonspace s then [s] else []
      | _ => []
      end
  | _ => []
  end.

(** The first non-empty string among the [text] field and the [content]
    field of a mapping, with nothing else asked of it. *)
Definition first_string_field (blk : json) : list text :=
  match blk with
  | JObj d =>
      match dict_get "text" d with
      | JStr (c :: s) => [c :: s]
      | _ =>
          match dict_get "content" d with
          | JStr (c :: s) => [c :: s]
          | _ => []
          end
      end
  | _ => []
  end.

Definition join_first_string_fields (l : list json) : text :=
  strip (join_lf (flat_map first_string_field l)).

(** Labels as they are written in a text, for the statements on the
    residual cleanup. *)
Definition positive_labels_written : list text :=
  [of_string "Positive"; of_string "Prompt"; of_string "positive";
   of_string "prompt"; zh_prompt; zh_positive].




(** The part of the Unicode data base used for the concrete instances: the
    CJK unified ideographs U+4E00..U+9FFF are alphanumeric. *)
Definition cjk_alnum (c : cp) : bool := (19968 <=? c) && (c <=? 40959).

(** Responses for the concrete instances. *)
Definition resp_500 : response :=
  {| status_code := 500; resp_text := of_string "{}"; resp_json := inr (JObj []) |}.

Definition resp_garbled : response :=
  {| status_code := 200; resp_text := of_string "<html>";
     resp_json := inl JSONDecodeError |}.
(** ** Request construction *)

Definition SLASH : cp := 47.

(** [s.lstrip(ch)] and [s.rstrip(ch)] for a single character [ch]. *)
Fixpoint lstrip_chr (ch : cp) (s : text) : text :=
  match s with
  | c :: tl => if c =? ch then lstrip_chr ch tl else s
  | [] => []
  end.

Definition rstrip_chr (ch : cp) (s : text) : text :=
  rev (lstrip_chr ch (rev s)).

(** [s.startswith("/")] *)
Definition starts_with_slash (s : text) : bool :=
  match s with c :: _ => c =? SLASH | [] => false end.

(** Step 3 of [ask]: the URL the request is posted to. *)
Definition request_url (api_base endpoint_path : text) : text :=
  let base := rstrip_chr SLASH api_base in
  let path :=
    if starts_with_slash endpoint_path then endpoint_path
    else SLASH :: endpoint_path in
  base ++ path.

(** An entry of a dict literal with a string key. *)
Definition kv (k : string) (v : json) : text * json := (of_string k, v).

Definition jstr (s : string) : json := JStr (of_string s).

(** Truth value of an optional string ([None] is false). *)
Definition opt_truthy (o : option text) : bool :=
  match o with Some u => nonempty u | None => false end.

Definition opt_text (o : option text) : text :=
  match o with Some u => u | None => [] end.

Definition _build_messages (question system_prompt : text)
           (data_url : option text) (use_vision_mode : string) : list json :=
  let user_content : list json := [] in
  let user_content :=
    if nonempty question && nonempty (strip question)
    then user_content
           ++ [JObj [kv "type" (jstr "text"); kv "text" (JStr question)]]
    else user_content in
  let user_content :=
    if (String.eqb use_vision_mode "auto" || String.eqb use_vision_mode "force_on")
       && opt_truthy data_url
    then user_content
           ++ [JObj [kv "type" (jstr "image_url");
                     kv "image_url" (JObj [kv "url" (JStr (opt_text data_url))])]]
    else user_content in
  let messages : list json := [] in
  let messages :=
    if nonempty system_prompt && nonempty (strip system_prompt)
    then messages
           ++ [JObj [kv "role" (jstr "system"); kv "content" (JStr system_prompt)]]
    else messages in
  messages
    ++ [JObj [kv "role" (jstr "user");
              kv "content"
                 match user_content with
                 | [] => JStr question
                 | _ => JArr user_content
                 end]].


(** [d[k] = v] on a dict that keeps insertion order. *)
Fixpoint dict_set (k : text) (v : json) (d : list (text * json))
  : list (text * json) :=
  match d with
  | [] => [(k, v)]
  | (k', v') :: tl =>
      if text_eqb k' k then (k', v) :: tl else (k', v') :: dict_set k v tl
  end.

(** [for k, v in extra.items(): headers[k] = v] *)
Definition dict_update (headers extra : list (text * json))
  : list (text * json) :=
  fold_left (fun h e => dict_set (fst e) (snd e) h) extra headers.

Section Request.

(** [json.loads] on the extra headers, or what it raises. *)
Variable json_loads : text -> exn + json.

Definition base_headers (api_key : text) : list (text * json) :=
  let headers := [(of_string "Content-Type", jstr "application/json")] in
  if nonempty api_key
  then dict_set (of_string "Authorization")
                (JStr (of_string "Bearer " ++ api_key)) headers
  else headers.

Definition _merge_headers (api_key extra_headers_json : text)
  : list (text * json) :=
  let headers := base_headers api_key in
  if nonempty extra_headers_json then
    match json_loads extra_headers_json with
    | inr v =>
        match jor v (JObj []) with
        | JObj extra => dict_update headers extra
        | _ => headers            (* [.items()] raises, the except passes *)
        end
    | inl _ => headers
    end
  else headers.

(** The dict the extra headers are taken from: empty when the string is
    empty, does not parse, or does not hold an object. *)
Definition extra_headers (extra_headers_json : text) : list (text * json) :=
  if nonempty extra_headers_json then
    match json_loads extra_headers_json with
    | inr (JObj d) => d
    | _ => []
    end
  else [].

End Request.

Section AskRequest.

Variable uni_alnum : cp -> bool.
Variable py_str : json -> option text.
Variable json_dumps : json -> text.
Variable exn_str : exn -> text.

(** Steps 5 and 6 of [ask]: [post] is the response of [requests.post], or
    the text of the exception it raised. *)
Definition ask_outputs (content_source : string) (elapsed : text)
           (post : text + response) : outputs :=
  match post with
  | inl e =>
      let err := of_string "[OpenAIAsk] request error: " ++ e in
      ([], [], err, json_dumps (JObj [kv "error" (JStr err)]))
  | inr resp =>
      ask_parse uni_alnum py_str json_dumps exn_str content_source elapsed resp
  end.

End AskRequest.

(** The keys of a dict are pairwise different. *)
Definition dict_ok (d : list (text * json)) : Prop := NoDup (map fst d).

(** The roles of a list of messages. *)
Definition message_role (m : json) : json :=
  match m with JObj d => dict_get "role" d | _ => JNull end.



Definition message_content (m : json) : json :=
  match m with JObj d => dict_get "content" d | _ => JNull end.

(** The answer text of an output tuple, and its prompt pair. *)
Definition answer_of (o : outputs) : text := snd (fst o).
Definition raw_of (o : outputs) : text := snd o.
Definition positive_of (o : outputs) : text := fst (fst (fst o)).
Definition negative_of (o : outputs) : text := snd (fst (fst o)).

(** The fixed texts of the answer. *)
Definition empty_placeholder : text :=
  of_string "[OpenAIAsk] Empty content from server.".

Definition http_error_text (status : Z) (body : text) : text :=
  of_string "[OpenAIAsk] HTTP " ++ str_int status ++ of_string ": " ++ body.

(** [choices] of a decoded object, with its default. *)
Definition choices_of (top : list (text * json)) : json :=
  match dict_find (of_string "choices") top with
  | Some v => v
  | None => JArr []
  end.

(** The text ends with [suffix]. *)
Definition ends_with (suffix s : text) : Prop := exists pre, s = pre ++ suffix.

(** The user label as it is written in a text. *)
Definition user_labels_written : list text :=
  [of_string "User"; of_string "user"; of_string "USER"; zh_user].

(** Inputs for the concrete instances. *)
Definition sample_loads (s : text) : exn + json :=
  if nonempty s then inr (JObj [kv "X-My-Header" (jstr "abc")])
  else inl JSONDecodeError.

Definition sample_content : text :=
  of_string "Prompt: a cat" ++ LF :: of_string "Negative: a dog".

Definition sample_body : list (text * json) :=
  [kv "choices"
      (JArr [JObj [kv "message" (JObj [kv "content" (JStr sample_content)])]])].

Definition resp_ok : response :=
  {| status_code := 200; resp_text := of_string "{...}";
     resp_json := inr (JObj sample_body) |}.

Definition resp_list : response :=
  {| status_code := 200; resp_text := of_string "[]"; resp_json := inr (JArr []) |}.

Definition resp_no_choices : response :=
  {| status_code := 200; resp_text := of_string "{}"; resp_json := inr (JObj []) |}.

(** The text with every newline written as CR LF. *)
Definition to_crlf (t : text) : text :=
  flat_map (fun c => if c =? LF then [CR; LF] else [c]) t.
(** ** The matcher returns matches of the relation *)

Section MatchRelation.

Variable uni_alnum : cp -> bool.

Lemma last_opt_nil prev : last_opt prev [] = prev.
Proof. reflexivity. Qed.

Lemma last_opt_cons prev c w : last_opt prev (c :: w) = last_opt (Some c) w.
Proof.
  unfold last_opt. simpl. destruct (rev w) as [|x l] eqn:E; simpl; reflexivity.
Qed.

Lemma last_opt_app prev a b :
  last_opt prev (a ++ b) = last_opt (last_opt prev a) b.
Proof.
  revert prev. induction a as [|c a IH]; intros prev; simpl.
  - reflexivity.
  - rewrite !last_opt_cons. apply IH.
Qed.

Lemma star_loop_sound p prev s k res :
  star_loop p prev s k = Some res ->
  exists prev' s', pm uni_alnum (Star p) prev s prev' s' /\ k prev' s' = Some res.
Proof.
  revert prev. induction s as [|c tl IH]; intros prev H; simpl in H.
  - exists prev, []. split; [constructor | exact H].
  - destruct (p c) eqn:Hp.
    + destruct (star_loop p (Some c) tl k) as [r|] eqn:E.
      * injection H as <-. destruct (IH _ E) as (p' & s' & Hm & Hk).
        exists p', s'. split; [now apply pm_star_more | exact Hk].
      * exists prev, (c :: tl). split; [constructor | exact H].
    + exists prev, (c :: tl). split; [constructor | exact H].
Qed.

Lemma rmatch_sound r : forall prev s k res,
  rmatch uni_alnum r prev s k = Some res ->
  exists prev' s', pm uni_alnum r prev s prev' s' /\ k prev' s' = Some res.
Proof.
  induction r as [|p|p|p| | | |r1 IH1 r2 IH2|r1 IH1 r2 IH2];
    intros prev s k res H; simpl in H.
  - exists prev, s. split; [constructor | exact H].
  - destruct s as [|c tl]; [discriminate|].
    destruct (p c) eqn:Hp; [|discriminate].
    exists (Some c), tl. split; [now constructor | exact H].
  - now apply star_loop_sound.
  - destruct s as [|c tl].
    + exists prev, []. split; [constructor | exact H].
    + destruct (p c) eqn:Hp.
      * destruct (k (Some c) tl) as [r|] eqn:E.
        -- injection H as <-. exists (Some c), tl.
           split; [now apply pm_opt_take | exact E].
        -- exists prev, (c :: tl). split; [constructor | exact H].
      * exists prev, (c :: tl). split; [constructor | exact H].
  - destruct prev; [discriminate|].
    exists None, s. split; [constructor | exact H].
  - destruct prev as [c|].
    + destruct (is_lf c) eqn:E; [|discriminate].
      exists (Some c), s. split; [now constructor | exact H].
    + exists None, s. split; [constructor | exact H].
  - destruct (xorb _ _) eqn:E; [|discriminate].
    exists prev, s. split; [now constructor | exact H].
  - destruct (IH1 _ _ _ _ H) as (p1 & s1 & Hm1 & Hk1).
    destruct (IH2 _ _ _ _ Hk1) as (p2 & s2 & Hm2 & Hk2).
    exists p2, s2. split; [eapply pm_cat; eassumption | exact Hk2].
  - destruct (rmatch uni_alnum r1 prev s k) as [r|] eqn:E.
    + injection H as <-. destruct (IH1 _ _ _ _ E) as (p' & s' & Hm & Hk).
      exists p', s'. split; [now apply pm_alt_l | exact Hk].
    + destruct (IH2 _ _ _ _ H) as (p' & s' & Hm & Hk).
      exists p', s'. split; [now apply pm_alt_r | exact Hk].
Qed.

(** A match reads a prefix [w] of the text. *)
Lemma pm_consumes r prev s prev' s' :
  pm uni_alnum r prev s prev' s' ->
  exists w, s = w ++ s' /\ prev' = last_opt prev w.
Proof.
  induction 1;
    try (exists []; split; reflexivity);
    try (exists [c]; split; reflexivity).
  - destruct IHpm as (w & -> & ->). exists (c :: w).
    split; [reflexivity | now rewrite last_opt_cons].
  - destruct IHpm1 as (w1 & -> & ->). destruct IHpm2 as (w2 & -> & ->).
    exists (w1 ++ w2). split; [now rewrite app_assoc | now rewrite last_opt_app].
  - exact IHpm.
  - exact IHpm.
Qed.

Lemma match_here_sound r prev s rest :
  match_here uni_alnum r prev s = Some rest ->
  exists prev', pm uni_alnum r prev s prev' rest.
Proof.
  intros H. apply rmatch_sound in H. destruct H as (p' & s' & Hm & Hk).
  injection Hk as <-. now exists p'.
Qed.

Lemma match_here_suffix r prev s rest :
  match_here uni_alnum r prev s = Some rest -> exists w, s = w ++ rest.
Proof.
  intros H. apply match_here_sound in H. destruct H as (p' & Hm).
  apply pm_consumes in Hm. destruct Hm as (w & Hw & _). now exists w.
Qed.

End MatchRelation.

(** ** [search] and [sub] *)

Section SearchSub.

Variable uni_alnum : cp -> bool.


Lemma matchless_tail r c s : matchless uni_alnum r (c :: s) -> matchless uni_alnum r s.
Proof. intros H prev a b ->. apply (H prev (c :: a) b). reflexivity. Qed.

Lemma search_from_matchless r s : forall prev i,
  matchless uni_alnum r s -> search_from uni_alnum r prev s i = None.
Proof.
  induction s as [|c tl IH]; intros prev i H; simpl.
  - now rewrite (H prev [] []).
  - rewrite (H prev [] (c :: tl)) by reflexivity.
    apply IH. eapply matchless_tail; eassumption.
Qed.

Lemma sub_from_matchless r s : forall prev,
  matchless uni_alnum r s -> sub_from uni_alnum r prev s 0 = s.
Proof.
  induction s as [|c tl IH]; intros prev H; simpl.
  - reflexivity.
  - rewrite (H prev [] (c :: tl)) by reflexivity.
    f_equal. apply IH. eapply matchless_tail; eassumption.
Qed.

(** Dropping the characters of a match. *)
Lemma sub_from_skip r w : forall prev rest,
  sub_from uni_alnum r prev (w ++ rest) (List.length w) = sub_from uni_alnum r (last_opt prev w) rest 0.
Proof.
  induction w as [|c w IH]; intros prev rest.
  - reflexivity.
  - simpl. rewrite IH, last_opt_cons. reflexivity.
Qed.

Lemma length_app_minus (w rest : text) :
  (List.length (w ++ rest) - List.length rest)%nat = List.length w.
Proof. rewrite length_app. lia. Qed.

Lemma sub_from_cons0 r prev c tl :
  sub_from uni_alnum r prev (c :: tl) 0 =
  match match_here uni_alnum r prev (c :: tl) with
  | Some rest =>
      match (List.length (c :: tl) - List.length rest)%nat with
      | S n => sub_from uni_alnum r (Some c) tl n
      | O => c :: sub_from uni_alnum r (Some c) tl 0
      end
  | None => c :: sub_from uni_alnum r (Some c) tl 0
  end.
Proof. reflexivity. Qed.


(** One step of [sub] at a position where a non-empty match starts. *)
Lemma sub_from_match r prev c w rest :
  match_here uni_alnum r prev (c :: w ++ rest) = Some rest ->
  sub_from uni_alnum r prev (c :: w ++ rest) 0 = sub_from uni_alnum r (last_opt (Some c) w) rest 0.
Proof.
  intros H. rewrite sub_from_cons0, H.
  change (c :: w ++ rest) with ((c :: w) ++ rest).
  rewrite length_app_minus. simpl List.length. cbv iota.
  apply sub_from_skip.
Qed.

Lemma sub_from_nomatch r prev c tl :
  match_here uni_alnum r prev (c :: tl) = None ->
  sub_from uni_alnum r prev (c :: tl) 0 = c :: sub_from uni_alnum r (Some c) tl 0.
Proof. intros H. now rewrite sub_from_cons0, H. Qed.

(** [search] at a position where a match starts, and past one where none does. *)
Lemma search_from_eq r prev s i :
  search_from uni_alnum r prev s i =
  match match_here uni_alnum r prev s with
  | Some rest => Some (i, (i + (List.length s - List.length rest))%nat)
  | None =>
      match s with
      | [] => None
      | c :: tl => search_from uni_alnum r (Some c) tl (S i)
      end
  end.
Proof. destruct s; reflexivity. Qed.

Lemma search_from_hit r prev w rest i :
  match_here uni_alnum r prev (w ++ rest) = Some rest ->
  search_from uni_alnum r prev (w ++ rest) i = Some (i, (i + List.length w)%nat).
Proof.
  intros H. rewrite search_from_eq, H, length_app_minus. reflexivity.
Qed.

Lemma search_from_miss r prev c tl i :
  match_here uni_alnum r prev (c :: tl) = None ->
  search_from uni_alnum r prev (c :: tl) i = search_from uni_alnum r (Some c) tl (S i).
Proof. intros H. now rewrite search_from_eq, H. Qed.

End SearchSub.

(** ** White space stripping *)

Lemma has_nonspace_lstrip s : has_nonspace (lstrip s) = has_nonspace s.
Proof.
  induction s as [|c s IH]; simpl; [reflexivity|].
  destruct (isspace c) eqn:E; simpl; [exact IH | now rewrite E].
Qed.

Lemma nonempty_lstrip s : nonempty (lstrip s) = has_nonspace s.
Proof.
  induction s as [|c s IH]; simpl; [reflexivity|].
  destruct (isspace c) eqn:E; simpl; [exact IH | reflexivity].
Qed.

Lemma nonempty_rev (s : text) : nonempty (rev s) = nonempty s.
Proof.
  destruct s as [|c s]; simpl; [reflexivity|].
  destruct (rev s); reflexivity.
Qed.

Lemma has_nonspace_rev s : has_nonspace (rev s) = has_nonspace s.
Proof.
  unfold has_nonspace. induction s as [|c s IH]; simpl; [reflexivity|].
  rewrite existsb_app, IH. simpl. rewrite orb_false_r. apply orb_comm.
Qed.

Lemma nonempty_strip s : nonempty (strip s) = has_nonspace s.
Proof.
  unfold strip, rstrip.
  now rewrite nonempty_rev, nonempty_lstrip, has_nonspace_rev, has_nonspace_lstrip.
Qed.

(** ** Character classes *)

Ltac bool_prop :=
  repeat (rewrite ?orb_true_iff, ?andb_true_iff, ?orb_false_iff,
            ?andb_false_iff, ?N.eqb_eq, ?N.eqb_neq, ?N.leb_le, ?N.leb_gt,
            ?N.ltb_lt, ?N.ltb_ge in *).

Lemma isspace_range c :
  isspace c = true ->
  c <= 32 \/ c = 133 \/ c = 160 \/ c = 5760 \/ (8192 <= c <= 8287) \/ c = 12288.
Proof. unfold isspace. bool_prop. lia. Qed.




Lemma is_colon_not_space c : is_colon c = true -> isspace c = false.
Proof.
  unfold is_colon, COLON, FWCOLON. bool_prop.
  intros [-> | ->]; reflexivity.
Qed.


(** ** Greedy repetition *)

Section Star.

Variable uni_alnum : cp -> bool.


(** On a text that does not start with a character of the class the
    repetition is empty. *)
Lemma star_loop_skip p prev c tl k :
  p c = false -> star_loop p prev (c :: tl) k = k prev (c :: tl).
Proof. intros H. simpl. now rewrite H. Qed.

Lemma star_loop_accept s : forall prev,
  star_loop isspace prev s accept = Some (lstrip s).
Proof.
  induction s as [|c s IH]; intros prev; simpl; [reflexivity|].
  destruct (isspace c); [now rewrite IH | reflexivity].
Qed.

Lemma lstrip_app_spaces a b : forallb isspace a = true -> lstrip (a ++ b) = lstrip b.
Proof.
  induction a as [|c a IH]; simpl; [reflexivity|].
  rewrite andb_true_iff. intros [-> H]. now apply IH.
Qed.

(** A pattern anchored at the start of the text matches nowhere else. *)
Lemma match_here_bos r c s :
  match_here uni_alnum (Cat Bos r) (Some c) s = None.
Proof. reflexivity. Qed.

Lemma sub_from_bos r : forall s c,
  sub_from uni_alnum (Cat Bos r) (Some c) s 0 = s.
Proof.
  induction s as [|d tl IH]; intros c; [reflexivity|].
  rewrite sub_from_nomatch by apply match_here_bos. now rewrite IH.
Qed.

Lemma last_opt_some c w : exists d, last_opt (Some c) w = Some d.
Proof.
  revert c. induction w as [|x w IH]; intros c.
  - now exists c.
  - rewrite last_opt_cons. apply IH.
Qed.

(** [sub] with a pattern anchored at the start of the text deletes the
    match at offset 0, if there is one, and nothing else. *)
Lemma sub_bos r s :
  sub uni_alnum (Cat Bos r) s =
  match match_here uni_alnum (Cat Bos r) None s with
  | Some rest => rest
  | None => s
  end.
Proof.
  unfold sub. destruct s as [|c tl].
  - simpl. destruct (match_here _ _ _ _) as [rest|] eqn:E; [|reflexivity].
    apply match_here_suffix in E. destruct E as (w & E).
    symmetry in E. apply app_eq_nil in E. now destruct E.
  - destruct (match_here uni_alnum (Cat Bos r) None (c :: tl)) as [rest|] eqn:E.
    + destruct (match_here_suffix _ _ _ _ _ E) as (w & Hw).
      destruct w as [|x w].
      * simpl in Hw. subst rest. rewrite sub_from_cons0, E.
        rewrite Nat.sub_diag. now rewrite sub_from_bos.
      * simpl in Hw. injection Hw as <- ->.
        rewrite sub_from_match by exact E.
        destruct (last_opt_some c w) as (d & ->). apply sub_from_bos.
    + rewrite sub_from_nomatch by exact E. now rewrite sub_from_bos.
Qed.

End Star.

(** ** Sub-texts *)

Lemma in_lstrip c s : In c (lstrip s) -> In c s.
Proof.
  induction s as [|x s IH]; simpl; [tauto|].
  destruct (isspace x); simpl; tauto.
Qed.

Lemma in_strip c s : In c (strip s) -> In c s.
Proof.
  unfold strip, rstrip. intros H.
  apply in_rev, in_lstrip in H. apply in_rev in H. now apply in_lstrip.
Qed.

Lemma in_replace_crlf c : forall n s,
  (List.length s <= n)%nat -> In c (replace_crlf s) -> In c s.
Proof.
  induction n as [|n IH]; intros s Hn H.
  - destruct s; [exact H | simpl in Hn; lia].
  - destruct s as [|x [|y s]]; simpl in *; try tauto.
    destruct ((x =? CR) && (y =? LF)) eqn:E.
    + apply andb_true_iff in E. destruct E as [_ E]. apply N.eqb_eq in E.
      simpl in H. destruct H as [H|H].
      * right. left. congruence.
      * right. right. apply IH; [lia | exact H].
    + simpl in H. destruct H as [H|H]; [now left|].
      right. apply (IH (y :: s)); [simpl; lia | exact H].
Qed.

Lemma existsb_false_incl (p : cp -> bool) (s s' : text) :
  (forall c, In c s' -> In c s) -> existsb p s = false -> existsb p s' = false.
Proof.
  intros Hin H. destruct (existsb p s') eqn:E; [|reflexivity].
  apply existsb_exists in E. destruct E as (c & Hc & Hp).
  assert (existsb p s = true) by (apply existsb_exists; exists c; auto).
  congruence.
Qed.

Lemma colon_free_strip s : colon_free s -> colon_free (strip s).
Proof. apply existsb_false_incl. intros c. apply in_strip. Qed.

Lemma colon_free_lstrip s : colon_free s -> colon_free (lstrip s).
Proof. apply existsb_false_incl. intros c. apply in_lstrip. Qed.

Lemma colon_free_replace_crlf s : colon_free s -> colon_free (replace_crlf s).
Proof.
  apply existsb_false_incl. intros c. apply (in_replace_crlf c (List.length s)).
  lia.
Qed.

Lemma colon_free_app a b : colon_free (a ++ b) <-> colon_free a /\ colon_free b.
Proof. unfold colon_free. rewrite existsb_app, orb_false_iff. tauto. Qed.

(** ** Stripping twice *)

Lemma starts_clean_lstrip s : starts_clean (lstrip s).
Proof.
  induction s as [|c s IH]; simpl; [exact I|].
  destruct (isspace c) eqn:E; [exact IH | exact E].
Qed.

Lemma lstrip_clean s : starts_clean s -> lstrip s = s.
Proof. destruct s as [|c s]; simpl; [reflexivity|]. now intros ->. Qed.

Lemma lstrip_snoc a c :
  isspace c = false -> exists y, lstrip (a ++ [c]) = y ++ [c].
Proof.
  intros Hc. induction a as [|x a IH]; simpl.
  - rewrite Hc. now exists [].
  - destruct (isspace x); [exact IH|]. now exists (x :: a).
Qed.

Lemma starts_clean_rstrip s : starts_clean s -> starts_clean (rstrip s).
Proof.
  destruct s as [|c s]; [intros _; exact I|]. simpl. intros Hc.
  unfold rstrip. simpl rev.
  destruct (lstrip_snoc (rev s) c Hc) as (y & ->).
  rewrite rev_app_distr. simpl. exact Hc.
Qed.

Lemma rstrip_rstrip s : rstrip (rstrip s) = rstrip s.
Proof.
  unfold rstrip. rewrite rev_involutive.
  now rewrite (lstrip_clean _ (starts_clean_lstrip _)).
Qed.

Lemma starts_clean_strip s : starts_clean (strip s).
Proof. apply starts_clean_rstrip, starts_clean_lstrip. Qed.

Lemma strip_strip s : strip (strip s) = strip s.
Proof.
  unfold strip at 1. rewrite (lstrip_clean _ (starts_clean_strip s)).
  unfold strip. apply rstrip_rstrip.
Qed.

(** ** Every label pattern reads a colon *)

Section Colon.

Variable uni_alnum : cp -> bool.

Lemma reads_colon_cls : reads_colon uni_alnum (Cls is_colon).
Proof.
  intros prev s prev' s' H. inversion H; subst.
  exists [c]. split; [reflexivity|]. simpl. now rewrite orb_false_r.
Qed.

Lemma reads_colon_cat_r r1 r2 :
  reads_colon uni_alnum r2 -> reads_colon uni_alnum (Cat r1 r2).
Proof.
  intros H2 prev s prev' s' H. inversion H; subst.
  match goal with
  | [ Ha : pm _ r1 _ _ _ _, Hb : pm _ r2 _ _ _ _ |- _ ] =>
      apply pm_consumes in Ha; destruct Ha as (w1 & -> & _);
      apply H2 in Hb; destruct Hb as (w2 & -> & Hc)
  end.
  exists (w1 ++ w2). split; [now rewrite app_assoc|].
  rewrite existsb_app, Hc. apply orb_true_r.
Qed.

Lemma reads_colon_cat_l r1 r2 :
  reads_colon uni_alnum r1 -> reads_colon uni_alnum (Cat r1 r2).
Proof.
  intros H1 prev s prev' s' H. inversion H; subst.
  match goal with
  | [ Ha : pm _ r1 _ _ _ _, Hb : pm _ r2 _ _ _ _ |- _ ] =>
      apply pm_consumes in Hb; destruct Hb as (w2 & -> & _);
      apply H1 in Ha; destruct Ha as (w1 & -> & Hc)
  end.
  exists (w1 ++ w2). split; [now rewrite app_assoc|].
  rewrite existsb_app, Hc. reflexivity.
Qed.

Lemma reads_colon_tail : reads_colon uni_alnum colon_tail.
Proof. apply reads_colon_cat_r, reads_colon_cat_l, reads_colon_cls. Qed.

Lemma reads_colon_prompt_label : reads_colon uni_alnum prompt_label_re.
Proof. do 3 apply reads_colon_cat_r. apply reads_colon_cat_l, reads_colon_tail. Qed.

Lemma reads_colon_neg : reads_colon uni_alnum neg_re.
Proof. do 2 apply reads_colon_cat_r. apply reads_colon_cat_l, reads_colon_tail. Qed.

Lemma reads_colon_pos_cleanup : reads_colon uni_alnum pos_cleanup_re.
Proof. do 3 apply reads_colon_cat_r. apply reads_colon_cat_l, reads_colon_tail. Qed.

Lemma reads_colon_neg_cleanup : reads_colon uni_alnum neg_cleanup_re.
Proof. do 3 apply reads_colon_cat_r. apply reads_colon_cat_l, reads_colon_tail. Qed.

(** A pattern that reads a colon matches nowhere in a text without colon. *)
Lemma colon_free_matchless r s :
  reads_colon uni_alnum r -> colon_free s -> matchless uni_alnum r s.
Proof.
  intros Hr Hs prev a b -> .
  destruct (match_here uni_alnum r prev b) as [rest|] eqn:E; [|reflexivity].
  exfalso. apply match_here_sound in E. destruct E as (p' & Hm).
  apply Hr in Hm. destruct Hm as (w & -> & Hw).
  unfold colon_free in Hs. rewrite !existsb_app, Hw in Hs.
  rewrite orb_true_r in Hs. discriminate.
Qed.

Lemma search_colon_free r s :
  reads_colon uni_alnum r -> colon_free s -> search uni_alnum r s = None.
Proof.
  intros Hr Hs. apply search_from_matchless. now apply colon_free_matchless.
Qed.

Lemma sub_colon_free r s :
  reads_colon uni_alnum r -> colon_free s -> sub uni_alnum r s = s.
Proof.
  intros Hr Hs. apply sub_from_matchless. now apply colon_free_matchless.
Qed.

End Colon.

(** ** Line-anchored patterns under [sub] *)

Section LineAnchored.

Variable uni_alnum : cp -> bool.







End LineAnchored.

Section LineLabel.

Variable uni_alnum : cp -> bool.





End LineLabel.

(** ** What [search] finds *)

Section SearchResult.

Variable uni_alnum : cp -> bool.





End SearchResult.

(** ** Where a label match ends *)

Section MatchEnd.

Variable uni_alnum : cp -> bool.







Lemma lstrip_split s :
  exists sp, s = sp ++ lstrip s /\ forallb isspace sp = true.
Proof.
  induction s as [|c s (sp & E & H)]; simpl.
  - now exists [].
  - destruct (isspace c) eqn:Ec.
    + exists (c :: sp). simpl. rewrite Ec, H. now rewrite <- E.
    + now exists [].
Qed.

Lemma skipn_app_exact (a b : text) n :
  n = List.length a -> skipn n (a ++ b) = b.
Proof.
  intros ->. induction a as [|c a IH]; simpl; [reflexivity | exact IH].
Qed.

Lemma firstn_app_exact (a b : text) n :
  n = List.length a -> firstn n (a ++ b) = a.
Proof.
  intros ->. induction a as [|c a IH]; simpl; [reflexivity | now rewrite IH].
Qed.



End MatchEnd.

(** ** The shape of a label match *)

Section LabelShape.

Variable uni_alnum : cp -> bool.

Lemma pm_lit l : forall prev s prev' s',
  pm uni_alnum (lit l) prev s prev' s' ->
  exists w, s = w ++ s' /\ lit_matches l w = true.
Proof.
  induction l as [|a l IH]; intros prev s prev' s' H; simpl in H.
  - inversion H; subst. now exists [].
  - inversion H; subst.
    match goal with
    | [ H1 : pm _ (Cls _) _ _ _ _, H2 : pm _ (lit l) _ _ _ _ |- _ ] =>
        inversion H1; subst; apply IH in H2; destruct H2 as (w & -> & Hw)
    end.
    exists (c :: w). split; [reflexivity|]. simpl.
    apply andb_true_iff. now split.
Qed.

Lemma pm_star_word p prev s prev' s' :
  pm uni_alnum (Star p) prev s prev' s' ->
  exists w, s = w ++ s' /\ forallb p w = true.
Proof.
  intros H. remember (Star p) as r eqn:Er. revert Er.
  induction H; intros Er; try discriminate; injection Er as ->.
  - now exists [].
  - destruct (IHpm eq_refl) as (w & -> & Hw).
    exists (c :: w). split; [reflexivity|]. simpl. now rewrite H.
Qed.

Lemma pm_colon_tail_word prev s prev' s' :
  pm uni_alnum colon_tail prev s prev' s' ->
  exists sp c rest,
    s = sp ++ c :: rest /\ forallb isspace sp = true /\ is_colon c = true.
Proof.
  unfold colon_tail. cbn [cats]. intros H.
  inversion H; subst; clear H.
  match goal with
  | [ H1 : pm _ (Star _) _ _ _ _, H2 : pm _ (Cat (Cls _) _) _ _ _ _ |- _ ] =>
      apply pm_star_word in H1; destruct H1 as (sp & -> & Hsp);
      inversion H2; subst; clear H2
  end.
  match goal with
  | [ H1 : pm _ (Cls _) _ _ _ _ |- _ ] => inversion H1; subst; clear H1
  end.
  match goal with
  | [ Hc : is_colon ?c = true |- exists _ _ _, ?sp ++ ?c :: ?tl = _ /\ _ ] =>
      exists sp, c, tl; repeat split; assumption
  end.
Qed.

Lemma pm_alt_inv r1 r2 prev s prev' s' :
  pm uni_alnum (Alt r1 r2) prev s prev' s' ->
  pm uni_alnum r1 prev s prev' s' \/ pm uni_alnum r2 prev s prev' s'.
Proof. intros H. inversion H; subst; auto. Qed.

Lemma pm_cat_inv r1 r2 prev s prev' s' :
  pm uni_alnum (Cat r1 r2) prev s prev' s' ->
  exists p1 s1, pm uni_alnum r1 prev s p1 s1 /\ pm uni_alnum r2 p1 s1 prev' s'.
Proof. intros H. inversion H; subst; eauto. Qed.

Lemma pm_eps_inv prev s prev' s' :
  pm uni_alnum Eps prev s prev' s' -> prev' = prev /\ s' = s.
Proof. intros H. inversion H; subst; auto. Qed.

Ltac split_alts H :=
  repeat (apply pm_alt_inv in H; destruct H as [H|H]).

Lemma pm_prompt_labels prev s prev' s' :
  pm uni_alnum prompt_labels prev s prev' s' ->
  exists w l, s = w ++ s' /\ In l prompt_label_words
              /\ lit_matches l w = true.
Proof.
  unfold prompt_labels, word. cbn [alts]. intros H.
  split_alts H;
    match type of H with
    | pm _ (lit ?l) _ _ _ _ =>
        apply pm_lit in H; destruct H as (w & -> & Hw);
        exists w, l; split; [reflexivity|]; split; [|exact Hw];
        unfold prompt_label_words; simpl; tauto
    end.
Qed.

(** A negative label is one of its end words, possibly after a first word
    and white space (as in "negative prompt" and "do not"). *)
Lemma pm_neg_labels prev s prev' s' :
  pm uni_alnum neg_labels prev s prev' s' ->
  exists u v l, s = u ++ v ++ s' /\ In l neg_label_ends
                /\ lit_matches l v = true
                /\ (u = [] \/ l = of_string "prompt" \/ l = of_string "not").
Proof.
  unfold neg_labels, word. cbn [alts cats]. intros H.
  split_alts H;
    try match type of H with
    | pm _ (lit ?l) _ _ _ _ =>
        apply pm_lit in H; destruct H as (w & -> & Hw);
        exists [], w, l; split; [reflexivity|]; split;
        [unfold neg_label_ends; simpl; tauto | split; [exact Hw | now left]]
    end.
  - apply pm_cat_inv in H. destruct H as (p1 & s1 & H1 & H).
    apply pm_cat_inv in H. destruct H as (p2 & s2 & H2 & H).
    apply pm_cat_inv in H. destruct H as (p3 & s3 & H3 & H).
    apply pm_eps_inv in H. destruct H as [-> ->].
    apply pm_consumes in H1. destruct H1 as (w1 & -> & _).
    apply pm_consumes in H2. destruct H2 as (w2 & -> & _).
    apply pm_lit in H3. destruct H3 as (w3 & -> & Hw).
    exists (w1 ++ w2), w3, (of_string "prompt").
    split; [now rewrite <- !app_assoc|]. split; [simpl; tauto|].
    split; [exact Hw | tauto].
  - apply pm_cat_inv in H. destruct H as (p1 & s1 & H1 & H).
    apply pm_cat_inv in H. destruct H as (p2 & s2 & H2 & H).
    apply pm_cat_inv in H. destruct H as (p3 & s3 & H3 & H).
    apply pm_eps_inv in H. destruct H as [-> ->].
    apply pm_consumes in H1. destruct H1 as (w1 & -> & _).
    apply pm_consumes in H2. destruct H2 as (w2 & -> & _).
    apply pm_lit in H3. destruct H3 as (w3 & -> & Hw).
    exists (w1 ++ w2), w3, (of_string "not").
    split; [now rewrite <- !app_assoc|]. split; [simpl; tauto|].
    split; [exact Hw | tauto].
Qed.

End LabelShape.

(** ** The label before the only colon of a text *)

Lemma single_colon : forall (X P Y Q : text) c k,
  colon_free P -> colon_free Q -> is_colon c = true -> is_colon k = true ->
  X ++ c :: Y = P ++ k :: Q -> X = P /\ Y = Q.
Proof.
  unfold colon_free.
  induction X as [|x X IH]; intros [|p P] Y Q c k HP HQ Hc Hk E; simpl in *.
  - injection E as _ ->. now split.
  - injection E as -> _. rewrite Hc in HP. discriminate.
  - injection E as -> E. subst Q. rewrite existsb_app in HQ. simpl in HQ.
    rewrite Hc, orb_true_r in HQ. discriminate.
  - injection E as -> E. apply orb_false_iff in HP. destruct HP as [_ HP].
    destruct (IH P Y Q c k HP HQ Hc Hk E) as [-> ->]. now split.
Qed.

Lemma spaces_tail_empty (A B sp : text) e :
  A ++ sp = B ++ [e] -> forallb isspace sp = true -> isspace e = false ->
  sp = [].
Proof.
  intros E Hsp He. destruct sp as [|x sp] using rev_ind; [reflexivity|].
  exfalso. rewrite app_assoc in E. apply app_inj_tail in E.
  destruct E as [_ ->]. rewrite forallb_app in Hsp. simpl in Hsp.
  rewrite He in Hsp. rewrite andb_false_r in Hsp. discriminate.
Qed.

Lemma suffix_known (U V w K : text) :
  U ++ w = V ++ K -> (List.length w <= List.length K)%nat ->
  w = skipn (List.length K - List.length w) K.
Proof.
  intros E Hlen. apply app_eq_app in E. destruct E as (l & [[-> ->] | [-> ->]]).
  - rewrite length_app. symmetry. apply skipn_app_exact. lia.
  - rewrite length_app in Hlen. destruct l as [|x l]; [|simpl in Hlen; lia].
    simpl. now rewrite Nat.sub_diag.
Qed.

Lemma lit_matches_length : forall l w,
  lit_matches l w = true -> List.length w = List.length l.
Proof.
  induction l as [|a l IH]; intros [|c w] H; simpl in *;
    try discriminate; [reflexivity|].
  apply andb_true_iff in H. destruct H as [_ H]. f_equal. now apply IH.
Qed.

(** The instance of a label that ends right before the colon of
    [P ++ "Negative" ++ ":" ++ Q]. *)
Lemma label_before_colon (A v sp Y P Q l : text) c :
  colon_free P -> colon_free Q ->
  forallb isspace sp = true -> is_colon c = true ->
  lit_matches l v = true -> (List.length l <= 8)%nat ->
  A ++ v ++ sp ++ c :: Y = P ++ of_string "Negative" ++ COLON :: Q ->
  Y = Q /\ A ++ v = P ++ of_string "Negative"
  /\ v = skipn (8 - List.length l) (of_string "Negative").
Proof.
  intros HP HQ Hsp Hc Hv Hl E.
  assert (E' : (A ++ v ++ sp) ++ c :: Y
               = (P ++ of_string "Negative") ++ COLON :: Q)
    by (now rewrite <- !app_assoc).
  apply single_colon in E'; try assumption; try reflexivity.
  - destruct E' as [E' ->]. split; [reflexivity|].
    assert (sp = []).
    { apply (spaces_tail_empty (A ++ v) (P ++ of_string "Negativ") sp 101);
        try assumption; try reflexivity.
      rewrite <- !app_assoc. exact E'. }
    subst sp. rewrite app_nil_r in E'. split; [exact E'|].
    rewrite <- (lit_matches_length _ _ Hv).
    apply (suffix_known A P v (of_string "Negative")); [exact E'|].
    rewrite (lit_matches_length _ _ Hv). exact Hl.
  - apply colon_free_app. split; [exact HP | reflexivity].
Qed.
(** ** The reconstruction [positive + "\n" + "Negative: " + negative] *)

Section Reconstruction.

Variable uni_alnum : cp -> bool.

Lemma pm_wb_inv prev s prev' s' :
  pm uni_alnum Wb prev s prev' s' -> prev' = prev /\ s' = s.
Proof. intros H. inversion H; subst; auto. Qed.

Ltac open_cat H p s H1 :=
  apply pm_cat_inv in H; destruct H as (p & s & H1 & H).

(** In [P ++ "Negative:" ++ Q], with no other colon, the prompt-label
    pattern matches nowhere. *)
Lemma prompt_label_absent P Q :
  colon_free P -> colon_free Q ->
  matchless uni_alnum prompt_label_re
            (P ++ of_string "Negative" ++ COLON :: Q).
Proof.
  intros HP HQ prev a b E.
  destruct (match_here uni_alnum prompt_label_re prev b) as [rest|] eqn:Hm;
    [exfalso | reflexivity].
  apply match_here_sound in Hm. destruct Hm as (p' & Hm).
  unfold prompt_label_re in Hm. cbn [cats] in Hm.
  open_cat Hm p1 s1 H1. open_cat Hm p2 s2 H2. open_cat Hm p3 s3 H3.
  open_cat Hm p4 s4 H4.
  apply pm_consumes in H1. destruct H1 as (w1 & -> & _).
  apply pm_consumes in H2. destruct H2 as (w2 & -> & _).
  apply pm_prompt_labels in H3. destruct H3 as (w & l & -> & Hl & Hw).
  apply pm_colon_tail_word in H4. destruct H4 as (sp & c & Y & -> & Hsp & Hc).
  assert (E' : (a ++ w1 ++ w2) ++ w ++ sp ++ c :: Y
               = P ++ of_string "Negative" ++ COLON :: Q)
    by (rewrite E, <- !app_assoc; reflexivity).
  assert (Hlen : (List.length l <= 8)%nat).
  { unfold prompt_label_words in Hl. simpl in Hl.
    repeat (destruct Hl as [<-|Hl]; [simpl; lia|]). contradiction. }
  destruct (label_before_colon _ _ _ _ _ _ _ _ HP HQ Hsp Hc Hw Hlen E')
    as (_ & _ & Hv).
  rewrite Hv in Hw. unfold prompt_label_words in Hl. simpl in Hl.
  repeat (destruct Hl as [<-|Hl]; [vm_compute in Hw; discriminate Hw|]).
  contradiction.
Qed.

(** There the negative-label pattern matches at "Negative" only. *)
Lemma neg_match_position P Q a b prev rest :
  colon_free P -> colon_free Q ->
  a ++ b = P ++ of_string "Negative" ++ COLON :: Q ->
  match_here uni_alnum neg_re prev b = Some rest ->
  a = P.
Proof.
  intros HP HQ E Hm.
  apply match_here_sound in Hm. destruct Hm as (p' & Hm).
  unfold neg_re in Hm. cbn [cats] in Hm.
  open_cat Hm p1 s1 H1. open_cat Hm p2 s2 H2. open_cat Hm p3 s3 H3.
  apply pm_wb_inv in H1. destruct H1 as [-> ->].
  apply pm_neg_labels in H2.
  destruct H2 as (u & v & l & -> & Hl & Hv & Hu).
  apply pm_colon_tail_word in H3. destruct H3 as (sp & c & Y & -> & Hsp & Hc).
  assert (E' : (a ++ u) ++ v ++ sp ++ c :: Y
               = P ++ of_string "Negative" ++ COLON :: Q)
    by (rewrite <- E, <- !app_assoc; reflexivity).
  assert (Hlen : (List.length l <= 8)%nat).
  { unfold neg_label_ends in Hl. simpl in Hl.
    repeat (destruct Hl as [<-|Hl]; [simpl; lia|]). contradiction. }
  destruct (label_before_colon _ _ _ _ _ _ _ _ HP HQ Hsp Hc Hv Hlen E')
    as (_ & Eav & Ev).
  rewrite Ev in Hv. unfold neg_label_ends in Hl. simpl in Hl.
  destruct Hl as [<-|Hl]; [vm_compute in Hv; discriminate Hv|].
  destruct Hl as [<-|Hl].
  - destruct Hu as [-> | [Hu | Hu]]; try discriminate Hu.
    rewrite app_nil_r in Eav. simpl in Ev. subst v.
    now apply app_inv_tail in Eav.
  - repeat (destruct Hl as [<-|Hl]; [vm_compute in Hv; discriminate Hv|]).
    contradiction.
Qed.

End Reconstruction.

Section ReconstructedSearch.

Variable uni_alnum : cp -> bool.

Lemma search_from_skip_prefix r rest : forall P prev i,
  (forall a1 a2, P = a1 ++ a2 -> a2 <> [] ->
                 match_here uni_alnum r (last_opt prev a1) (a2 ++ rest) = None) ->
  search_from uni_alnum r prev (P ++ rest) i
  = search_from uni_alnum r (last_opt prev P) rest (i + List.length P).
Proof.
  induction P as [|c P IH]; intros prev i H.
  - simpl. now rewrite Nat.add_0_r.
  - simpl app. rewrite search_from_miss.
    + rewrite IH.
      * rewrite last_opt_cons. simpl. f_equal. lia.
      * intros a1 a2 -> Ha2. specialize (H (c :: a1) a2 eq_refl Ha2).
        now rewrite last_opt_cons in H.
    + apply (H [] (c :: P)); [reflexivity | discriminate].
Qed.

Lemma neg_at_negative prev n :
  opt_word uni_alnum prev = false ->
  match_here uni_alnum neg_re prev (of_string "Negative: " ++ n)
  = Some (lstrip n).
Proof.
  intros Hp. unfold match_here, neg_re. simpl. rewrite Hp. simpl.
  change (fun (p' : option cp) (s' : text) => accept p' s') with accept.
  rewrite star_loop_accept. reflexivity.
Qed.

(** The negative label of [P ++ "Negative: " ++ n] is found after [P]. *)
Lemma search_neg_reconstructed P n :
  colon_free P -> colon_free n -> starts_clean n ->
  opt_word uni_alnum (last_opt None P) = false ->
  search uni_alnum neg_re (P ++ of_string "Negative: " ++ n)
  = Some (List.length P, (List.length P + 10)%nat).
Proof.
  intros HP Hn Hc Hw. unfold search.
  rewrite search_from_skip_prefix.
  - pose proof (neg_at_negative _ n Hw) as Hm.
    rewrite (lstrip_clean _ Hc) in Hm.
    now rewrite (search_from_hit _ _ _ _ _ _ Hm).
  - intros a1 a2 -> Ha2.
    destruct (match_here uni_alnum neg_re (last_opt None a1)
                (a2 ++ of_string "Negative: " ++ n)) as [rest|] eqn:Hm;
      [exfalso | reflexivity].
    assert (E : a1 ++ a2 ++ of_string "Negative: " ++ n
                = (a1 ++ a2) ++ of_string "Negative" ++ COLON :: 32 :: n)
      by (now rewrite <- app_assoc).
    pose proof (neg_match_position uni_alnum (a1 ++ a2) (32 :: n) a1
                  (a2 ++ of_string "Negative: " ++ n) (last_opt None a1) rest
                  HP Hn E Hm) as E1.
    apply Ha2. rewrite <- (app_nil_r a1) in E1 at 1.
    apply app_inv_head in E1. now symmetry.
Qed.

End ReconstructedSearch.

(** ** Texts that stripping leaves alone *)

Lemma replace_crlf_id s : ~ In CR s -> replace_crlf s = s.
Proof.
  induction s as [|c s IH]; intros H; [reflexivity|].
  simpl in H. simpl. destruct s as [|d s]; [reflexivity|].
  assert (Hc : (c =? CR) = false) by (apply N.eqb_neq; intros ->; tauto).
  rewrite Hc. simpl. f_equal. apply IH. tauto.
Qed.

Lemma strip_fixed n :
  strip n = n -> starts_clean n /\ starts_clean (rev n) /\ rstrip n = n.
Proof.
  intros H. assert (Hs : starts_clean n) by (rewrite <- H; apply starts_clean_strip).
  split; [exact Hs|]. split.
  - rewrite <- H. unfold strip, rstrip. rewrite rev_involutive.
    apply starts_clean_lstrip.
  - unfold strip in H. now rewrite (lstrip_clean _ Hs) in H.
Qed.

Lemma lstrip_app_clean (p y : text) :
  p <> [] -> starts_clean p -> lstrip (p ++ y) = p ++ y.
Proof.
  destruct p as [|c p]; [congruence|]. simpl. intros _ ->. reflexivity.
Qed.

Lemma rstrip_app_clean (y n : text) :
  n <> [] -> starts_clean (rev n) -> rstrip (y ++ n) = y ++ n.
Proof.
  intros Hn Hc. unfold rstrip. rewrite rev_app_distr.
  rewrite lstrip_app_clean.
  - now rewrite <- rev_app_distr, rev_involutive.
  - intros E. apply Hn. rewrite <- (rev_involutive n), E. reflexivity.
  - exact Hc.
Qed.

Lemma strip_snoc_lf p : strip p = p -> strip (p ++ [LF]) = p.
Proof.
  intros H. destruct (strip_fixed p H) as (Hs & _ & Hr).
  destruct p as [|c p]; [reflexivity|].
  unfold strip. rewrite lstrip_app_clean by (discriminate || exact Hs).
  unfold rstrip in *. rewrite rev_app_distr. simpl rev at 1. simpl app at 1.
  simpl lstrip at 1. exact Hr.
Qed.

(** * Properties of the pipeline *)

(** ** Source selection *)

(** C6: for all strings [content], [reasoning] and [fallback], the source
    selection of [ask] returns the first non-empty string in the order of
    the policy (content_only: content, fallback, reasoning; reasoning_only:
    reasoning, fallback, content; auto: content, reasoning, fallback), the
    empty string when all three are empty, and ["F"] for content_only with
    an empty content, fallback ["F"] and reasoning ["R"]. *)
Theorem select_source_first_nonempty :
  (forall content reasoning fallback,
      select_source "content_only" content reasoning fallback
        = first_nonempty [content; fallback; reasoning]
      /\ select_source "reasoning_only" content reasoning fallback
        = first_nonempty [reasoning; fallback; content]
      /\ select_source "auto" content reasoning fallback
        = first_nonempty [content; reasoning; fallback])
  /\ select_source "content_only" [] [] [] = []
  /\ select_source "reasoning_only" [] [] [] = []
  /\ select_source "auto" [] [] [] = []
  /\ select_source "content_only" [] (of_string "R") (of_string "F")
     = of_string "F".
Proof.
  split; [|repeat split; reflexivity].
  intros content reasoning fallback.
  destruct content, reasoning, fallback; repeat split; reflexivity.
Qed.

(** ** Content extraction *)

Lemma block_part_text blk : block_part blk = block_text blk.
Proof.
  destruct blk as [| | | | |l|d]; try reflexivity.
  unfold block_part, block_text, first_truthy, jor.
  destruct (truthy (dict_get "text" d)) eqn:Ht.
  - rewrite Ht. destruct (dict_get "text" d); try reflexivity.
    now rewrite nonempty_strip.
  - destruct (truthy (dict_get "content" d)) eqn:Hc.
    + destruct (dict_get "content" d); try reflexivity; try discriminate.
      now rewrite nonempty_strip.
    + reflexivity.
Qed.

(** C7 (as the code has it): the extractor returns the empty string for null, a plain
    string unchanged, and the empty string when the string conversion of another value
    fails; for a list it returns the stripped newline-join of what the
    blocks contribute, a mapping contributing the first truthy value among
    its [text] and [content] fields when that value is a string that is not
    all white space, and anything else contributing nothing; the list
    [{"text":"A"},{"content":"B"},{}] gives ["A\nB"]. *)
Theorem extract_text_from_content_spec (py_str : json -> option text) :
  _extract_text_from_content py_str JNull = []
  /\ (forall s, _extract_text_from_content py_str (JStr s) = s)
  /\ (forall l, _extract_text_from_content py_str (JArr l)
                = strip (join_lf (flat_map block_text l)))
  /\ (forall v, py_str v = None -> v <> JNull ->
                (forall s, v <> JStr s) -> (forall l, v <> JArr l) ->
                _extract_text_from_content py_str v = [])
  /\ _extract_text_from_content py_str
       (JArr [JObj [(of_string "text", JStr (of_string "A"))];
              JObj [(of_string "content", JStr (of_string "B"))];
              JObj []])
     = of_string "A" ++ LF :: of_string "B".
Proof.
  repeat split; try reflexivity.
  - intros l. simpl. f_equal. f_equal.
    induction l as [|b l IH]; simpl; [reflexivity|].
    now rewrite block_part_text, IH.
  - intros v Hv Hn Hs Hl.
    destruct v; simpl; try rewrite Hv; try reflexivity.
    + now elim (Hs s).
    + now elim (Hl l).
Qed.

(** C7, as stated, fails: a block whose [text] is white space contributes
    nothing, although that field is a non-empty string. *)
Lemma extract_text_not_first_string_field :
  _extract_text_from_content (fun _ => None)
    (JArr [JObj [(of_string "text", JStr (of_string "A"))];
           JObj [(of_string "text", JStr (of_string " "))];
           JObj [(of_string "text", JStr (of_string "C"))]])
  = of_string "A" ++ LF :: of_string "C"
  /\ join_first_string_fields
       [JObj [(of_string "text", JStr (of_string "A"))];
        JObj [(of_string "text", JStr (of_string " "))];
        JObj [(of_string "text", JStr (of_string "C"))]]
     = of_string "A" ++ LF :: of_string " " ++ LF :: of_string "C"
  /\ _extract_text_from_content (fun _ => None)
       (JArr [JObj [(of_string "text", JStr (of_string "A"))];
              JObj [(of_string "text", JStr (of_string " "))];
              JObj [(of_string "text", JStr (of_string "C"))]])
     <> join_first_string_fields
          [JObj [(of_string "text", JStr (of_string "A"))];
           JObj [(of_string "text", JStr (of_string " "))];
           JObj [(of_string "text", JStr (of_string "C"))]].
Proof. repeat split; try reflexivity. vm_compute. discriminate. Qed.

(** ** The failure paths of the response assembler *)

Section AskFailures.

Variable uni_alnum : cp -> bool.
Variable py_str : json -> option text.
Variable json_dumps : json -> text.
Variable exn_str : exn -> text.

(** C9: for a response with status >= 400 and a decodable body, positive
    and negative are empty, the answer text carries the status code and the
    decoded body, and the raw JSON output is the pretty-printed body; for a
    response whose body does not decode (and for any other exception of the
    parsing stage), positive and negative are empty, the answer text is the
    parse-error message (the tag ["[OpenAIAsk] parse error: "], the text of
    the exception, a newline, ["HTTP "] with the status, and [" Body: "]
    with the raw text), and the raw JSON output is the raw body text. *)
Theorem ask_parse_failure_paths (content_source : string) (elapsed : text)
        (resp : response) :
  (forall data d,
      resp_json resp = inr data ->
      (400 <= status_code resp)%Z ->
      py_str data = Some d ->
      ask_parse uni_alnum py_str json_dumps exn_str content_source elapsed resp
      = ([], [],
         of_string "[OpenAIAsk] HTTP " ++ str_int (status_code resp)
           ++ of_string ": " ++ d,
         json_dumps data))
  /\ (forall e,
      resp_json resp = inl e ->
      ask_parse uni_alnum py_str json_dumps exn_str content_source elapsed resp
      = ([], [],
         of_string "[OpenAIAsk] parse error: " ++ exn_str e
           ++ LF :: of_string "HTTP " ++ str_int (status_code resp)
           ++ of_string " Body: " ++ resp_text resp,
         resp_text resp))
  /\ (forall e,
      parse_body uni_alnum py_str json_dumps content_source elapsed resp = inl e ->
      ask_parse uni_alnum py_str json_dumps exn_str content_source elapsed resp
      = ([], [],
         of_string "[OpenAIAsk] parse error: " ++ exn_str e
           ++ LF :: of_string "HTTP " ++ str_int (status_code resp)
           ++ of_string " Body: " ++ resp_text resp,
         resp_text resp)).
Proof.
  unfold ask_parse, parse_body, parse_error_text. repeat split.
  - intros data d Hj Hs Hd. rewrite Hj. simpl.
    apply Z.leb_le in Hs. now rewrite Hs, Hd.
  - intros e Hj. now rewrite Hj.
  - intros e He. now rewrite He.
Qed.

End AskFailures.

(** ** The sanitizer *)

Section Sanitizer.

Variable uni_alnum : cp -> bool.



End Sanitizer.

(** ** The splitter *)

Section Splitter.

Variable uni_alnum : cp -> bool.

(** C2 (as the code has it): the colon after a label is required by every
    pattern of the splitter, so on a text without colon (neither [:] nor
    the full-width colon) no preamble is discarded and nothing is split:
    the positive component is the whole stripped text and the negative
    component is empty. *)
Theorem split_needs_colon (t : text) :
  colon_free t ->
  _split_positive_negative uni_alnum t = (strip (replace_crlf t), []).
Proof.
  intros Ht. destruct t as [|c t]; [reflexivity|].
  unfold _split_positive_negative.
  set (s := strip (replace_crlf (c :: t))).
  assert (Hs : colon_free s)
    by (apply colon_free_strip, colon_free_replace_crlf, Ht).
  rewrite (search_colon_free _ _ _ (reads_colon_prompt_label _) Hs).
  rewrite (search_colon_free _ _ _ (reads_colon_neg _) Hs).
  rewrite (sub_colon_free _ _ _ (reads_colon_pos_cleanup _)
             (colon_free_strip _ Hs)).
  unfold s. now rewrite !strip_strip.
Qed.

(** C1: the splitter returns the stated pairs on the example inputs, and
    on every text with a negative label and no positive label (no match of
    the prompt-label pattern) step 2 splits the whole stripped text at the
    negative label. *)
Theorem split_examples_and_negative_only :
  _split_positive_negative uni_alnum
    (of_string "Prompt: a cat" ++ LF :: of_string "Negative: a dog")
  = (of_string "a cat", of_string "a dog")
  /\ _split_positive_negative uni_alnum
       (of_string "random preamble" ++ LF :: of_string "Positive: sunset"
          ++ LF :: of_string "Avoid: blur")
     = (of_string "sunset", of_string "blur")
  /\ _split_positive_negative uni_alnum (of_string "just a plain sentence")
     = (of_string "just a plain sentence", [])
  /\ _split_positive_negative uni_alnum [] = ([], [])
  /\ _split_positive_negative uni_alnum (of_string "Negative: blur")
     = ([], of_string "blur")
  /\ (forall t b e,
         search uni_alnum prompt_label_re (strip (replace_crlf t)) = None ->
         search uni_alnum neg_re (strip (replace_crlf t)) = Some (b, e) ->
         _split_positive_negative uni_alnum t
         = (strip (sub uni_alnum pos_cleanup_re
                     (strip (firstn b (strip (replace_crlf t))))),
            strip (sub uni_alnum neg_cleanup_re
                     (strip (skipn e (strip (replace_crlf t))))))).
Proof.
  repeat split; try (vm_compute; reflexivity).
  intros t b e Hp Hn. destruct t as [|c t]; [discriminate Hn|].
  unfold _split_positive_negative. now rewrite Hp, Hn.
Qed.


(** *** Residual label cleanup *)








(** *** The invariant of the result *)




(** *** Splitting the reconstruction *)

Lemma split_components_stripped t p n :
  _split_positive_negative uni_alnum t = (p, n) ->
  strip p = p /\ strip n = n.
Proof.
  destruct t as [|c t]; unfold _split_positive_negative.
  - intros H. injection H as <- <-. now split.
  - destruct (search uni_alnum prompt_label_re _) as [[b0 e0]|];
      destruct (search uni_alnum neg_re _) as [[b1 e1]|];
      intros H; injection H as <- <-; split; apply strip_strip.
Qed.

Lemma split_reconstructed t P n :
  t <> [] ->
  strip (replace_crlf t) = P ++ of_string "Negative: " ++ n ->
  colon_free P -> colon_free n -> strip n = n ->
  opt_word uni_alnum (last_opt None P) = false ->
  _split_positive_negative uni_alnum t = (strip P, n).
Proof.
  intros Ht Hs HP Hn Hfix Hw.
  destruct (strip_fixed n Hfix) as (Hclean & _ & _).
  destruct t as [|c t]; [congruence|].
  unfold _split_positive_negative. rewrite Hs.
  assert (Hp : search uni_alnum prompt_label_re
                 (P ++ of_string "Negative: " ++ n) = None).
  { apply search_from_matchless.
    apply (prompt_label_absent uni_alnum P (32 :: n) HP Hn). }
  rewrite Hp, (search_neg_reconstructed uni_alnum P n HP Hn Hclean Hw).
  rewrite firstn_app_exact by reflexivity.
  replace (P ++ of_string "Negative: " ++ n)
    with ((P ++ of_string "Negative: ") ++ n) by (now rewrite <- app_assoc).
  rewrite skipn_app_exact by (rewrite length_app; reflexivity).
  rewrite (sub_colon_free _ _ _ (reads_colon_pos_cleanup _)
             (colon_free_strip _ HP)).
  rewrite Hfix.
  rewrite (sub_colon_free _ _ _ (reads_colon_neg_cleanup _) Hn).
  now rewrite strip_strip, Hfix.
Qed.

(** C5 (as the code has it): when the splitter returns [(positive,
    negative)] with [negative] non-empty, and neither component holds a
    colon or a carriage return, splitting
    [positive + "\n" + "Negative: " + negative] returns the same pair. *)
Theorem split_roundtrip_plain (x p n : text) :
  _split_positive_negative uni_alnum x = (p, n) ->
  n <> [] ->
  colon_free p -> colon_free n -> ~ In CR p -> ~ In CR n ->
  _split_positive_negative uni_alnum (p ++ LF :: of_string "Negative: " ++ n)
  = (p, n).
Proof.
  intros Hx Hne Hp Hn Hcp Hcn.
  destruct (split_components_stripped _ _ _ Hx) as [Hfp Hfn].
  destruct (strip_fixed n Hfn) as (Hclean & Hrclean & _).
  destruct (strip_fixed p Hfp) as (Hpclean & _ & _).
  assert (Hcr : replace_crlf (p ++ LF :: of_string "Negative: " ++ n)
                = p ++ LF :: of_string "Negative: " ++ n).
  { apply replace_crlf_id. intros H. apply in_app_or in H.
    destruct H as [H|H]; [now apply Hcp|].
    change (LF :: of_string "Negative: " ++ n)
      with ((LF :: of_string "Negative: ") ++ n) in H.
    apply in_app_or in H. destruct H as [H|H]; [|now apply Hcn].
    simpl in H. intuition discriminate. }
  destruct p as [|c p].
  - rewrite <- (strip_snoc_lf [] eq_refl) at 2.
    change (strip ([] ++ [LF])) with (@nil cp).
    apply (split_reconstructed _ [] n); try assumption; try reflexivity.
    + discriminate.
    + rewrite Hcr.
      exact (rstrip_app_clean (of_string "Negative: ") n Hne Hrclean).
  - rewrite <- (strip_snoc_lf (c :: p) Hfp) at 2.
    apply (split_reconstructed _ ((c :: p) ++ [LF]) n); try assumption.
    + discriminate.
    + rewrite Hcr. rewrite <- app_assoc. simpl app at 2. unfold strip.
      rewrite lstrip_app_clean by (discriminate || exact Hpclean).
      change (rstrip ((c :: p) ++ LF :: of_string "Negative: " ++ n)
              = (c :: p) ++ LF :: of_string "Negative: " ++ n).
      replace ((c :: p) ++ LF :: of_string "Negative: " ++ n)
        with (((c :: p) ++ LF :: of_string "Negative: ") ++ n)
        by (now rewrite <- app_assoc).
      now apply rstrip_app_clean.
    + apply colon_free_app. split; [exact Hp | reflexivity].
    + rewrite last_opt_app. reflexivity.
Qed.

End Splitter.

(** * Further properties of the node *)

(** ** The request URL *)

Lemma lstrip_chr_repeat ch k s :
  lstrip_chr ch (repeat ch k ++ s) = lstrip_chr ch s.
Proof.
  induction k as [|k IH]; simpl; [reflexivity|]. now rewrite N.eqb_refl.
Qed.

Lemma rev_repeat_chr (ch : cp) k : rev (repeat ch k) = repeat ch k.
Proof.
  induction k as [|k IH]; simpl; [reflexivity|].
  rewrite IH. symmetry. apply repeat_cons.
Qed.

Lemma rstrip_chr_repeat ch s k :
  rstrip_chr ch (s ++ repeat ch k) = rstrip_chr ch s.
Proof.
  unfold rstrip_chr. now rewrite rev_app_distr, rev_repeat_chr, lstrip_chr_repeat.
Qed.

Lemma lstrip_chr_head ch s x tl : lstrip_chr ch s = x :: tl -> x <> ch.
Proof.
  induction s as [|c s IH]; simpl; [discriminate|].
  destruct (N.eqb_spec c ch) as [->|Hc]; [exact IH|].
  intros H. injection H as <- _. exact Hc.
Qed.

Lemma rstrip_chr_last ch s x : rstrip_chr ch s <> x ++ [ch].
Proof.
  unfold rstrip_chr. intros H.
  apply (f_equal (@rev cp)) in H. rewrite rev_involutive, rev_app_distr in H.
  simpl in H. apply lstrip_chr_head in H. now apply H.
Qed.

(** X1: the URL is the base address without its trailing slashes, one
    slash, and the endpoint path; it is the same whether or not the base
    address is written with trailing slashes and the path with its leading
    slash, and the base part never ends with a slash. *)
Theorem request_url_slashes (api_base endpoint_path : text) (k : nat) :
  starts_with_slash endpoint_path = false ->
  request_url (api_base ++ repeat SLASH k) endpoint_path
  = rstrip_chr SLASH api_base ++ SLASH :: endpoint_path
  /\ request_url (api_base ++ repeat SLASH k) (SLASH :: endpoint_path)
     = rstrip_chr SLASH api_base ++ SLASH :: endpoint_path
  /\ (forall x, rstrip_chr SLASH api_base <> x ++ [SLASH]).
Proof.
  intros He. unfold request_url. rewrite rstrip_chr_repeat, He. simpl.
  repeat split. intros x. apply rstrip_chr_last.
Qed.

(** ** The request headers *)

Lemma text_eqb_eq : forall a b, text_eqb a b = true <-> a = b.
Proof.
  induction a as [|x a IH]; intros [|y b]; simpl; split; intros H;
    try reflexivity; try discriminate.
  - apply andb_true_iff in H. destruct H as [H1 H2].
    apply N.eqb_eq in H1. apply IH in H2. now subst.
  - injection H as -> ->. rewrite N.eqb_refl. now apply IH.
Qed.

Lemma text_eqb_refl a : text_eqb a a = true.
Proof. now apply text_eqb_eq. Qed.

Lemma text_eqb_neq a b : a <> b -> text_eqb a b = false.
Proof.
  intros H. destruct (text_eqb a b) eqn:E; [|reflexivity].
  apply text_eqb_eq in E. contradiction.
Qed.

Lemma dict_find_set_same k v d : dict_find k (dict_set k v d) = Some v.
Proof.
  induction d as [|[k' v'] d IH]; simpl.
  - now rewrite text_eqb_refl.
  - destruct (text_eqb k' k) eqn:E; simpl; rewrite E; [reflexivity | exact IH].
Qed.

Lemma dict_find_set_other k k' v d :
  k <> k' -> dict_find k (dict_set k' v d) = dict_find k d.
Proof.
  intros Hk. induction d as [|[k0 v0] d IH]; simpl.
  - rewrite text_eqb_neq; [reflexivity | congruence].
  - destruct (text_eqb k0 k') eqn:E; simpl.
    + apply text_eqb_eq in E. subst k0.
      rewrite text_eqb_neq; [reflexivity | congruence].
    + now rewrite IH.
Qed.

Lemma dict_find_none k d : ~ In k (map fst d) -> dict_find k d = None.
Proof.
  induction d as [|[k' v'] d IH]; simpl; [reflexivity|]. intros H.
  rewrite text_eqb_neq by tauto. apply IH. tauto.
Qed.

Lemma dict_find_update k : forall extra headers,
  dict_ok extra ->
  dict_find k (dict_update headers extra)
  = match dict_find k extra with
    | Some v => Some v
    | None => dict_find k headers
    end.
Proof.
  unfold dict_update, dict_ok.
  induction extra as [|[k' v'] extra IH]; intros headers Hok; simpl.
  - reflexivity.
  - inversion Hok as [|? ? Hnotin Hok']; subst. rewrite IH by exact Hok'.
    destruct (text_eqb k' k) eqn:E.
    + apply text_eqb_eq in E. subst k'.
      rewrite (dict_find_none _ _ Hnotin). apply dict_find_set_same.
    + destruct (dict_find k extra); [reflexivity|].
      apply dict_find_set_other. intros ->. now rewrite text_eqb_refl in E.
Qed.

Lemma dict_find_update_keeps k : forall extra headers,
  dict_find k headers <> None ->
  dict_find k (dict_update headers extra) <> None.
Proof.
  unfold dict_update.
  induction extra as [|[k' v'] extra IH]; intros headers H; simpl; [exact H|].
  apply IH. destruct (text_eqb k k') eqn:E.
  - apply text_eqb_eq in E. subst k'. now rewrite dict_find_set_same.
  - rewrite dict_find_set_other; [exact H|].
    intros ->. now rewrite text_eqb_refl in E.
Qed.

Section Headers.

Variable json_loads : text -> exn + json.

Lemma merge_headers_update api_key s :
  _merge_headers json_loads api_key s
  = dict_update (base_headers api_key) (extra_headers json_loads s).
Proof.
  unfold _merge_headers, extra_headers.
  destruct (nonempty s); [|reflexivity].
  destruct (json_loads s) as [e|v]; [reflexivity|].
  destruct v as [| | | | |l|d]; try reflexivity.
  - destruct b; reflexivity.
  - unfold jor. simpl. destruct (negb (Z.eqb n 0)); reflexivity.
  - unfold jor. simpl. destruct (negb (Z.eqb m 0)); reflexivity.
  - unfold jor. simpl. destruct (nonempty s0); reflexivity.
  - unfold jor. simpl. destruct l; reflexivity.
  - unfold jor. simpl. destruct d; reflexivity.
Qed.

(** X2: the extra headers are merged in last: a header of the result is
    the one of the extra object when that object has the key, and the base
    header (Content-Type, Authorization) otherwise; a string that is empty,
    does not parse or holds no object adds nothing. *)
Theorem merge_headers_lookup (api_key s k : text) :
  dict_ok (extra_headers json_loads s) ->
  dict_find k (_merge_headers json_loads api_key s)
  = match dict_find k (extra_headers json_loads s) with
    | Some v => Some v
    | None => dict_find k (base_headers api_key)
    end.
Proof. intros H. rewrite merge_headers_update. now apply dict_find_update. Qed.

(** X3: merging never drops a base header: the result always has a
    Content-Type, and an Authorization when the key is not empty, whatever
    the extra headers are. *)
Theorem merge_headers_keeps_base (api_key s : text) :
  dict_find (of_string "Content-Type") (_merge_headers json_loads api_key s)
  <> None
  /\ (api_key <> [] ->
      dict_find (of_string "Authorization")
                (_merge_headers json_loads api_key s) <> None).
Proof.
  rewrite merge_headers_update. split.
  - apply dict_find_update_keeps. unfold base_headers.
    destruct (nonempty api_key); simpl; discriminate.
  - intros Hk. apply dict_find_update_keeps. unfold base_headers.
    destruct api_key; [congruence|]. simpl. discriminate.
Qed.

(** X4: when the extra headers do not set it, the Authorization header is
    ["Bearer " + api_key] for a non-empty key and absent for an empty one. *)
Theorem merge_headers_authorization (api_key s : text) :
  dict_ok (extra_headers json_loads s) ->
  dict_find (of_string "Authorization") (extra_headers json_loads s) = None ->
  dict_find (of_string "Authorization") (_merge_headers json_loads api_key s)
  = if nonempty api_key
    then Some (JStr (of_string "Bearer " ++ api_key))
    else None.
Proof.
  intros Hok Hno. rewrite merge_headers_update, dict_find_update by exact Hok.
  rewrite Hno. unfold base_headers. destruct (nonempty api_key); reflexivity.
Qed.

End Headers.

(** ** The messages of the request *)

Lemma nonblank s : nonempty s && nonempty (strip s) = has_nonspace s.
Proof.
  rewrite nonempty_strip. destruct s as [|c s]; [reflexivity|].
  reflexivity.
Qed.

(** X5: the messages are an optional system message, present exactly when
    the system prompt has a character that is not white space, followed by
    exactly one user message. *)
Theorem build_messages_roles (question system_prompt : text)
        (data_url : option text) (mode : string) :
  map message_role (_build_messages question system_prompt data_url mode)
  = (if has_nonspace system_prompt then [jstr "system"] else [])
      ++ [jstr "user"].
Proof.
  unfold _build_messages. rewrite (nonblank system_prompt).
  destruct (has_nonspace system_prompt); reflexivity.
Qed.


(** X7: the question goes out verbatim: as the text of the first content
    block when it has a character that is not white space, and as the plain
    content of the user message when it is blank and no image is sent; a
    blank question next to an image is left out. *)
Theorem build_messages_question (question system_prompt : text)
        (data_url : option text) (mode : string) :
  let image :=
    (String.eqb mode "auto" || String.eqb mode "force_on")
    && opt_truthy data_url in
  let image_block :=
    JObj [kv "type" (jstr "image_url");
          kv "image_url" (JObj [kv "url" (JStr (opt_text data_url))])] in
  let text_block := JObj [kv "type" (jstr "text"); kv "text" (JStr question)] in
  map message_content
      (skipn (if has_nonspace system_prompt then 1 else 0)
             (_build_messages question system_prompt data_url mode))
  = [match has_nonspace question, image with
     | true, true => JArr [text_block; image_block]
     | true, false => JArr [text_block]
     | false, true => JArr [image_block]
     | false, false => JStr question
     end].
Proof.
  unfold _build_messages. rewrite (nonblank system_prompt), (nonblank question).
  destruct (has_nonspace system_prompt), (has_nonspace question);
    destruct ((String.eqb mode "auto" || String.eqb mode "force_on")
              && opt_truthy data_url); reflexivity.
Qed.

(** ** The outputs of [ask] *)

Section AskOutputs.

Variable uni_alnum : cp -> bool.
Variable py_str : json -> option text.
Variable json_dumps : json -> text.
Variable exn_str : exn -> text.

(** The ways the parsing stage ends without exception. *)
Lemma parse_body_inr content_source elapsed resp out :
  parse_body uni_alnum py_str json_dumps content_source elapsed resp = inr out ->
  exists data,
    resp_json resp = inr data /\
    (((400 <= status_code resp)%Z /\
      exists d, py_str data = Some d /\
                out = ([], [], http_error_text (status_code resp) d,
                       json_dumps data))
    \/ ((status_code resp < 400)%Z /\
        exists top, data = JObj top /\
          ((truthy (choices_of top) = false /\
            out = ([], [], empty_placeholder ++ latency elapsed,
                   json_dumps data))
           \/ (truthy (choices_of top) = true /\
               exists src,
                 out = (fst (_split_positive_negative uni_alnum src),
                        snd (_split_positive_negative uni_alnum src),
                        (if nonempty (_sanitize_reasoning_text uni_alnum src)
                         then _sanitize_reasoning_text uni_alnum src
                         else empty_placeholder) ++ latency elapsed,
                        json_dumps data))))).
Proof.
  unfold parse_body, bind. intros H.
  destruct (resp_json resp) as [e|data]; [discriminate|].
  exists data. split; [reflexivity|].
  destruct (Z.leb_spec 400 (status_code resp)) as [Hs|Hs].
  - left. split; [exact Hs|].
    destruct (py_str data) as [d|]; [|discriminate].
    injection H as <-. exists d. now split.
  - right. split; [exact Hs|].
    destruct data as [| | | | | |top]; try discriminate H.
    exists top. split; [reflexivity|]. simpl as_dict in H. cbv iota beta in H.
    fold (choices_of top) in H.
    destruct (truthy (choices_of top)) eqn:Ht.
    + right. split; [reflexivity|].
      destruct (first_of (choices_of top)) as [e|c0]; [discriminate|].
      destruct (as_dict c0) as [e|c0d]; [discriminate|].
      destruct (as_dict (jor _ _)) as [e|msgd]; [discriminate|].
      match type of H with
      | context [_split_positive_negative uni_alnum ?s] => exists s
      end.
      destruct (_split_positive_negative uni_alnum _) as [p n].
      injection H as <-. reflexivity.
    + left. split; [reflexivity|]. injection H as <-. reflexivity.
Qed.

Lemma app_latency_nonempty (a elapsed : text) : a ++ latency elapsed <> [].
Proof.
  intros H. apply app_eq_nil in H. destruct H as [_ H]. discriminate H.
Qed.

(** X8: on every path (transport failure, HTTP error, undecodable or
    unexpected body, empty content, success) the answer text is not empty. *)
Theorem ask_answer_never_empty content_source elapsed post :
  answer_of (ask_outputs uni_alnum py_str json_dumps exn_str
                         content_source elapsed post) <> [].
Proof.
  destruct post as [e|resp]; [discriminate|].
  unfold ask_outputs, ask_parse.
  destruct (parse_body _ _ _ _ _ _) as [e|out] eqn:E; [discriminate|].
  apply parse_body_inr in E.
  destruct E as (data & _ & [(_ & d & _ & ->) | (_ & top & _ & [(_ & ->) | (_ & src & ->)])]).
  - discriminate.
  - discriminate.
  - apply app_latency_nonempty.
Qed.

(** X9: a non-empty positive or negative output only comes from a
    response below status 400 whose body decoded to an object with a
    non-empty [choices]; the raw JSON output is then the pretty-printed
    body and the answer text ends with the latency annotation. *)
Theorem ask_prompts_only_on_success content_source elapsed post :
  let o := ask_outputs uni_alnum py_str json_dumps exn_str
                       content_source elapsed post in
  positive_of o <> [] \/ negative_of o <> [] ->
  exists resp top,
    post = inr resp /\ resp_json resp = inr (JObj top)
    /\ (status_code resp < 400)%Z
    /\ truthy (choices_of top) = true
    /\ raw_of o = json_dumps (JObj top)
    /\ ends_with (latency elapsed) (answer_of o).
Proof.
  intros o H. subst o.
  destruct post as [e|resp]; [simpl in H; destruct H as [H|H]; now elim H|].
  unfold ask_outputs, ask_parse in *.
  destruct (parse_body _ _ _ _ _ _) as [e|out] eqn:E;
    [simpl in H; destruct H as [H|H]; now elim H|].
  apply parse_body_inr in E.
  destruct E as (data & Hj & [(_ & d & _ & ->) | (Hs & top & -> & [(_ & ->) | (Ht & src & ->)])]);
    try (simpl in H; destruct H as [H|H]; now elim H).
  exists resp, top. repeat split; try assumption.
  unfold answer_of. simpl. eexists. reflexivity.
Qed.

(** X10: a body that decodes to something else than an object (a list, a
    string, a number, null), under a status below 400, ends on the
    parse-error path: no prompts, and the raw JSON output falls back to
    the raw body text. *)
Theorem ask_parse_non_object content_source elapsed resp data :
  resp_json resp = inr data ->
  (status_code resp < 400)%Z ->
  (forall top, data <> JObj top) ->
  ask_parse uni_alnum py_str json_dumps exn_str content_source elapsed resp
  = ([], [], parse_error_text exn_str AttributeError resp, resp_text resp).
Proof.
  intros Hj Hs Hd. unfold ask_parse, parse_body, bind. rewrite Hj.
  apply Z.leb_gt in Hs. rewrite Hs.
  destruct data; try reflexivity. now elim (Hd d).
Qed.

(** X11: an object without [choices], or with an empty or null one, under
    a status below 400, gives no prompts, the placeholder answer with the
    latency annotation, and the pretty-printed body. *)
Theorem ask_parse_no_choices content_source elapsed resp top :
  resp_json resp = inr (JObj top) ->
  (status_code resp < 400)%Z ->
  truthy (choices_of top) = false ->
  ask_parse uni_alnum py_str json_dumps exn_str content_source elapsed resp
  = ([], [], empty_placeholder ++ latency elapsed, json_dumps (JObj top)).
Proof.
  intros Hj Hs Ht. unfold ask_parse, parse_body, bind. rewrite Hj.
  apply Z.leb_gt in Hs. rewrite Hs. simpl as_dict. cbv iota beta.
  fold (choices_of top). rewrite Ht. reflexivity.
Qed.

(** X12: with a plain, non-empty string as [choices[0].message.content]
    and the policy [content_only] or [auto], the prompt pair is the split
    of that string as it came, the answer text is its sanitized form (or
    the placeholder) with the latency annotation, and the other fields of
    the choice are not looked at. *)
Theorem ask_parse_content content_source elapsed resp top c0 rest msg c :
  content_source = "content_only"%string \/ content_source = "auto"%string ->
  resp_json resp = inr (JObj top) ->
  (status_code resp < 400)%Z ->
  choices_of top = JArr (JObj c0 :: rest) ->
  dict_find (of_string "message") c0 = Some (JObj msg) ->
  dict_get "content" msg = JStr c ->
  c <> [] ->
  ask_parse uni_alnum py_str json_dumps exn_str content_source elapsed resp
  = (fst (_split_positive_negative uni_alnum c),
     snd (_split_positive_negative uni_alnum c),
     (if nonempty (_sanitize_reasoning_text uni_alnum c)
      then _sanitize_reasoning_text uni_alnum c
      else empty_placeholder) ++ latency elapsed,
     json_dumps (JObj top)).
Proof.
  intros Hp Hj Hs Hc Hm Hcont Hne.
  unfold ask_parse, parse_body, bind. rewrite Hj.
  apply Z.leb_gt in Hs. rewrite Hs. simpl as_dict. cbv iota beta.
  fold (choices_of top). rewrite Hc. simpl truthy. cbv iota.
  unfold first_of, as_dict. cbv iota beta. rewrite Hm.
  assert (Hmsg : jor (JObj msg) (JObj []) = JObj msg).
  { destruct msg; [discriminate Hcont | reflexivity]. }
  rewrite Hmsg. cbv iota beta. rewrite Hcont.
  change (_extract_text_from_content py_str (JStr c)) with c.
  assert (Hsel : forall r f, select_source content_source c r f = c).
  { intros r f. destruct c; [congruence|].
    destruct Hp as [-> | ->]; reflexivity. }
  rewrite Hsel.
  destruct (_split_positive_negative uni_alnum c) as [p n]. reflexivity.
Qed.

End AskOutputs.

(** ** Source selection and content extraction, further *)

(** X13: a policy string other than [content_only] and [reasoning_only]
    selects like [auto]. *)
Theorem select_source_other_policy (content_source : string)
        (content reasoning fallback : text) :
  content_source <> "content_only"%string ->
  content_source <> "reasoning_only"%string ->
  select_source content_source content reasoning fallback
  = first_nonempty [content; reasoning; fallback].
Proof.
  intros H1 H2. unfold select_source.
  apply String.eqb_neq in H1. apply String.eqb_neq in H2. rewrite H1, H2.
  destruct content, reasoning, fallback; reflexivity.
Qed.

(** X14: whatever the policy string, the selected text is one of the three
    candidates, and it is empty only when all three are. *)
Theorem select_source_candidates (content_source : string)
        (content reasoning fallback : text) :
  In (select_source content_source content reasoning fallback)
     [content; reasoning; fallback]
  /\ (select_source content_source content reasoning fallback = [] <->
      content = [] /\ reasoning = [] /\ fallback = []).
Proof.
  unfold select_source, py_or.
  destruct (String.eqb content_source "content_only");
    [|destruct (String.eqb content_source "reasoning_only")];
    destruct content, reasoning, fallback; simpl;
    (split; [tauto | split; [intros H; try discriminate H; auto
                            | intros (H1 & H2 & H3);
                              try discriminate H1; try discriminate H2;
                              try discriminate H3; reflexivity]]).
Qed.

(** X15: in a list content, an element that is not a mapping (a string, a
    number, a nested list, null) is skipped: the extracted text is the same
    with or without it. *)
Theorem extract_list_skips_non_mapping (py_str : json -> option text)
        (l1 l2 : list json) (v : json) :
  (forall d, v <> JObj d) ->
  _extract_text_from_content py_str (JArr (l1 ++ v :: l2))
  = _extract_text_from_content py_str (JArr (l1 ++ l2)).
Proof.
  intros Hv. simpl. rewrite !flat_map_app. simpl.
  destruct v; try reflexivity. now elim (Hv d).
Qed.

(** ** The sanitizer, further *)

Section SanitizerLabel.

Variable uni_alnum : cp -> bool.

(** A repetition of white space followed by something that accepts every
    text without leading white space reads all the leading white space. *)
Lemma star_loop_greedy (k : cont) : forall s prev,
  (forall p' s', starts_clean s' -> k p' s' = Some s') ->
  star_loop isspace prev s k = Some (lstrip s).
Proof.
  induction s as [|c s IH]; intros prev Hk; simpl.
  - now apply Hk.
  - destruct (isspace c) eqn:Ec.
    + now rewrite IH.
    + apply Hk. exact Ec.
Qed.

Lemma opt_lf_clean p' s' :
  starts_clean s' ->
  rmatch uni_alnum (Cat (Opt is_lf) Eps) p' s' accept = Some s'.
Proof.
  destruct s' as [|c s']; simpl; [reflexivity|]. intros Hc.
  assert (Hlf : is_lf c = false).
  { unfold is_lf. apply N.eqb_neq. intros ->. discriminate Hc. }
  now rewrite Hlf.
Qed.

Lemma user_tail prev colon b :
  is_colon colon = true ->
  rmatch uni_alnum
         (cats [Star isspace; Opt is_colon; Star isspace; Opt is_lf])
         prev (colon :: b) accept
  = Some (lstrip b).
Proof.
  intros Hc. cbn [cats rmatch].
  rewrite star_loop_skip by (now apply is_colon_not_space).
  rewrite Hc.
  rewrite (star_loop_greedy _ b (Some colon)); [reflexivity|].
  intros p' s' Hs. now apply opt_lf_clean.
Qed.

Lemma user_re_at_label U colon b :
  In U user_labels_written -> is_colon colon = true ->
  match_here uni_alnum user_re None (U ++ colon :: b) = Some (lstrip b).
Proof.
  intros HU Hc. unfold match_here.
  change user_re
    with (Cat Bos (Cat (Star isspace)
            (Cat (alts [lit zh_user; word "User"])
                 (cats [Star isspace; Opt is_colon; Star isspace; Opt is_lf])))).
  remember (cats [Star isspace; Opt is_colon; Star isspace; Opt is_lf]) as T
    eqn:ET.
  simpl in HU.
  repeat (destruct HU as [<-|HU]; [simpl; subst T; now rewrite user_tail|]).
  contradiction.
Qed.

(** X16: a leading user label ("User" in any of its usual spellings, or
    its localized form) with its colon is taken off, with the white space
    after it: what is left is the stripped rest of the text. *)
Theorem sanitize_removes_user_label U colon b :
  In U user_labels_written -> is_colon colon = true -> ~ In CR b ->
  _sanitize_reasoning_text uni_alnum (U ++ colon :: b) = strip b.
Proof.
  intros HU Hc Hb. unfold _sanitize_reasoning_text.
  assert (Hcr : replace_crlf (U ++ colon :: b) = U ++ colon :: b).
  { apply replace_crlf_id. intros H. apply in_app_or in H.
    destruct H as [H|[H|H]].
    - simpl in HU.
      repeat (destruct HU as [<-|HU]; [simpl in H; intuition discriminate|]).
      contradiction.
    - subst colon. discriminate Hc.
    - now apply Hb. }
  rewrite Hcr.
  change user_re
    with (Cat Bos (cats [Star isspace; alts [lit zh_user; word "User"];
                         Star isspace; Opt is_colon; Star isspace; Opt is_lf])).
  rewrite sub_bos.
  change (Cat Bos (cats [Star isspace; alts [lit zh_user; word "User"];
                         Star isspace; Opt is_colon; Star isspace; Opt is_lf]))
    with user_re.
  rewrite (user_re_at_label U colon b HU Hc).
  unfold strip. now rewrite (lstrip_clean _ (starts_clean_lstrip b)).
Qed.

End SanitizerLabel.

(** ** More on stripping *)

Lemma lstrip_before_clean c : forall x y,
  isspace c = false -> lstrip (x ++ c :: y) = lstrip x ++ c :: y.
Proof.
  intros x y Hc. induction x as [|d x IH]; simpl.
  - now rewrite Hc.
  - destruct (isspace d); [exact IH | reflexivity].
Qed.

Lemma rstrip_after_clean c a b :
  isspace c = false -> rstrip (a ++ c :: b) = a ++ c :: rstrip b.
Proof.
  intros Hc. unfold rstrip. rewrite rev_app_distr. simpl rev at 1.
  rewrite <- app_assoc. simpl app at 2.
  rewrite lstrip_before_clean by exact Hc.
  rewrite rev_app_distr. simpl. rewrite rev_involutive, <- app_assoc.
  reflexivity.
Qed.

Lemma lstrip_spaces sp : forallb isspace sp = true -> lstrip sp = [].
Proof.
  induction sp as [|c sp IH]; simpl; [reflexivity|].
  rewrite andb_true_iff. intros [-> H]. now apply IH.
Qed.

Lemma forallb_rev (p : cp -> bool) (s : text) :
  forallb p (rev s) = forallb p s.
Proof.
  induction s as [|c s IH]; simpl; [reflexivity|].
  rewrite forallb_app, IH. simpl. rewrite andb_true_r. apply andb_comm.
Qed.

Lemma rstrip_app_spaces x sp :
  forallb isspace sp = true -> rstrip (x ++ sp) = rstrip x.
Proof.
  intros H. unfold rstrip. rewrite rev_app_distr.
  rewrite lstrip_app_spaces; [reflexivity|]. now rewrite forallb_rev.
Qed.

Lemma lstrip_rstrip_comm b : lstrip (rstrip b) = rstrip (lstrip b).
Proof.
  destruct (lstrip_split b) as (sp & E & Hsp).
  destruct (lstrip b) as [|c y] eqn:El.
  - rewrite app_nil_r in E. subst b.
    rewrite <- (app_nil_l sp), rstrip_app_spaces by exact Hsp. reflexivity.
  - assert (Hc : isspace c = false).
    { pose proof (starts_clean_lstrip b) as H. rewrite El in H. exact H. }
    rewrite E, rstrip_after_clean by exact Hc.
    rewrite lstrip_app_spaces by exact Hsp. simpl. rewrite Hc.
    change (c :: y) with ([] ++ c :: y).
    now rewrite rstrip_after_clean by exact Hc.
Qed.

Lemma strip_lstrip x : strip (lstrip x) = strip x.
Proof.
  unfold strip. now rewrite (lstrip_clean _ (starts_clean_lstrip x)).
Qed.

Lemma strip_rstrip x : strip (rstrip x) = strip x.
Proof.
  unfold strip. now rewrite lstrip_rstrip_comm, rstrip_rstrip.
Qed.

Lemma strip_app_spaces_r x sp :
  forallb isspace sp = true -> strip (x ++ sp) = strip x.
Proof.
  intros H. unfold strip. rewrite <- !lstrip_rstrip_comm.
  now rewrite rstrip_app_spaces.
Qed.

Lemma in_rstrip c s : In c (rstrip s) -> In c s.
Proof.
  unfold rstrip. intros H. apply in_rev, in_lstrip in H. now apply in_rev.
Qed.

Lemma colon_free_rstrip s : colon_free s -> colon_free (rstrip s).
Proof. apply existsb_false_incl. intros c. apply in_rstrip. Qed.

Lemma replace_crlf_spaces : forall n s,
  (List.length s <= n)%nat ->
  forallb isspace s = true -> forallb isspace (replace_crlf s) = true.
Proof.
  intros n s Hn H. apply forallb_forall. intros c Hc.
  apply (in_replace_crlf c n s Hn) in Hc.
  rewrite forallb_forall in H. now apply H.
Qed.

(** ** The splitter, further *)

Section SplitterMore.

Variable uni_alnum : cp -> bool.

(** X17: both components of the result are stripped: stripping them again
    changes nothing, so neither begins or ends with white space. *)
Theorem split_components_are_stripped (t : text) :
  strip (fst (_split_positive_negative uni_alnum t))
  = fst (_split_positive_negative uni_alnum t)
  /\ strip (snd (_split_positive_negative uni_alnum t))
     = snd (_split_positive_negative uni_alnum t).
Proof.
  destruct (_split_positive_negative uni_alnum t) as [p n] eqn:E.
  exact (split_components_stripped uni_alnum t p n E).
Qed.

(** X18: a text of white space only (blanks, tabs, newlines, CRLF) gives
    two empty components. *)
Theorem split_blank_text (t : text) :
  forallb isspace t = true ->
  _split_positive_negative uni_alnum t = ([], []).
Proof.
  intros H. destruct t as [|c t]; [reflexivity|].
  unfold _split_positive_negative.
  assert (Hs : strip (replace_crlf (c :: t)) = []).
  { unfold strip. rewrite lstrip_spaces; [reflexivity|].
    apply (replace_crlf_spaces (List.length (c :: t))); [lia | exact H]. }
  rewrite Hs. reflexivity.
Qed.

(** *** Texts in the two-line format *)

Lemma neg_at_negative_colon prev Q :
  opt_word uni_alnum prev = false ->
  match_here uni_alnum neg_re prev (of_string "Negative" ++ COLON :: Q)
  = Some (lstrip Q).
Proof.
  intros Hp. unfold match_here, neg_re. simpl. rewrite Hp. simpl.
  change (fun (p' : option cp) (s' : text) => accept p' s') with accept.
  rewrite star_loop_accept. reflexivity.
Qed.

Lemma search_neg_after P Q :
  colon_free P -> colon_free Q ->
  opt_word uni_alnum (last_opt None P) = false ->
  exists e,
    search uni_alnum neg_re (P ++ of_string "Negative" ++ COLON :: Q)
    = Some (List.length P, e)
    /\ skipn e (P ++ of_string "Negative" ++ COLON :: Q) = lstrip Q.
Proof.
  intros HP HQ Hw. unfold search.
  rewrite search_from_skip_prefix.
  - pose proof (neg_at_negative_colon _ Q Hw) as Hm.
    destruct (lstrip_split Q) as (sp & EQ & _).
    assert (E : of_string "Negative" ++ COLON :: Q
                = (of_string "Negative" ++ COLON :: sp) ++ lstrip Q)
      by (rewrite <- app_assoc; simpl; now rewrite <- EQ).
    rewrite E in Hm |- *.
    rewrite (search_from_hit _ _ _ _ _ _ Hm).
    eexists. split; [reflexivity|].
    rewrite app_assoc. apply skipn_app_exact. rewrite !length_app. simpl. lia.
  - intros a1 a2 -> Ha2.
    destruct (match_here uni_alnum neg_re (last_opt None a1)
                (a2 ++ of_string "Negative" ++ COLON :: Q)) as [rest|] eqn:Hm;
      [exfalso | reflexivity].
    assert (E : a1 ++ a2 ++ of_string "Negative" ++ COLON :: Q
                = (a1 ++ a2) ++ of_string "Negative" ++ COLON :: Q)
      by (now rewrite <- app_assoc).
    pose proof (neg_match_position uni_alnum (a1 ++ a2) Q a1
                  (a2 ++ of_string "Negative" ++ COLON :: Q)
                  (last_opt None a1) rest HP HQ E Hm) as E1.
    apply Ha2. rewrite <- (app_nil_r a1) in E1 at 1.
    apply app_inv_head in E1. now symmetry.
Qed.

(** Steps 2 and 3 on a working text [P ++ "Negative:" ++ Q]. *)
Lemma split_via_working t P Q :
  t <> [] ->
  match search uni_alnum prompt_label_re (strip (replace_crlf t)) with
  | Some (_, e) => lstrip (skipn e (strip (replace_crlf t)))
  | None => strip (replace_crlf t)
  end = P ++ of_string "Negative" ++ COLON :: Q ->
  colon_free P -> colon_free Q ->
  opt_word uni_alnum (last_opt None P) = false ->
  _split_positive_negative uni_alnum t = (strip P, strip Q).
Proof.
  intros Ht Hw HP HQ Hword. destruct t as [|c t]; [congruence|].
  unfold _split_positive_negative.
  set (s := strip (replace_crlf (c :: t))) in *.
  assert (Hw' : match search uni_alnum prompt_label_re s with
                | Some (_, e) => lstrip (skipn e s)
                | None => s
                end = P ++ of_string "Negative" ++ COLON :: Q).
  { destruct (search uni_alnum prompt_label_re s) as [[b0 e0]|]; exact Hw. }
  rewrite Hw'.
  destruct (search_neg_after P Q HP HQ Hword) as (e & Hs & Hskip).
  rewrite Hs, Hskip. rewrite firstn_app_exact by reflexivity.
  rewrite (sub_colon_free _ _ _ (reads_colon_pos_cleanup _)
             (colon_free_strip _ HP)).
  rewrite (sub_colon_free _ _ _ (reads_colon_neg_cleanup _)
             (colon_free_strip _ (colon_free_lstrip _ HQ))).
  now rewrite !strip_strip, strip_lstrip.
Qed.

Lemma search_matchless r s :
  matchless uni_alnum r s -> search uni_alnum r s = None.
Proof. apply search_from_matchless. Qed.

Lemma strip_negative_line X n :
  strip (X ++ of_string "Negative: " ++ n)
  = lstrip X ++ of_string "Negative" ++ COLON :: rstrip (32 :: n).
Proof.
  unfold strip.
  change (X ++ of_string "Negative: " ++ n)
    with (X ++ 78 :: of_string "egative: " ++ n).
  rewrite lstrip_before_clean by reflexivity.
  transitivity (rstrip ((lstrip X ++ of_string "Negative") ++ COLON :: 32 :: n)).
  - f_equal. rewrite <- app_assoc. reflexivity.
  - rewrite (rstrip_after_clean COLON (lstrip X ++ of_string "Negative")
               (32 :: n)) by reflexivity.
    rewrite <- app_assoc. reflexivity.
Qed.

Lemma ascii_space_not_word c :
  isspace c = true -> c < 128 -> is_word uni_alnum c = false.
Proof.
  intros Hs Hc. unfold is_word. apply N.ltb_lt in Hc. rewrite Hc.
  apply N.ltb_lt in Hc. apply isspace_range in Hs.
  assert (Hle : c <= 32) by lia. clear Hs Hc.
  unfold is_ascii_alnum. bool_prop. lia.
Qed.

Lemma space_not_colon c : isspace c = true -> is_colon c = false.
Proof.
  intros Hs. destruct (is_colon c) eqn:E; [|reflexivity].
  apply is_colon_not_space in E. congruence.
Qed.

Lemma working_prefix p c :
  isspace c = true -> c < 128 -> colon_free p ->
  colon_free (lstrip (p ++ [c]))
  /\ opt_word uni_alnum (last_opt None (lstrip (p ++ [c]))) = false
  /\ strip (lstrip (p ++ [c])) = strip p.
Proof.
  intros Hs Hc Hp. split; [|split].
  - apply colon_free_lstrip, colon_free_app. split; [exact Hp|].
    unfold colon_free. simpl. now rewrite (space_not_colon c Hs).
  - destruct (lstrip_split (p ++ [c])) as (sp & E & _).
    destruct (lstrip (p ++ [c])) as [|x P] using rev_ind; [reflexivity|].
    rewrite app_assoc in E. apply app_inj_tail in E. destruct E as [_ <-].
    rewrite last_opt_app. simpl. now apply ascii_space_not_word.
  - rewrite strip_lstrip. apply strip_app_spaces_r. simpl. now rewrite Hs.
Qed.

Lemma strip_blank_head n : strip (rstrip (32 :: n)) = strip n.
Proof. rewrite strip_rstrip. reflexivity. Qed.

Lemma no_cr_negative_line X n :
  ~ In CR X -> ~ In CR n -> ~ In CR (X ++ of_string "Negative: " ++ n).
Proof.
  intros HX Hn H. apply in_app_or in H. destruct H as [H|H]; [now apply HX|].
  apply in_app_or in H. destruct H as [H|H]; [|now apply Hn].
  simpl in H. intuition discriminate.
Qed.

(** X19: a text made of a first part, a white space character (a newline
    or a blank, say) and ["Negative: "] with a second part is split there,
    at a line start or inside a line, when the two parts hold no colon and
    no carriage return: the components are the two parts, stripped. *)
Theorem split_negative_line (p n : text) (c : cp) :
  isspace c = true -> c < 128 -> c <> CR ->
  colon_free p -> colon_free n -> ~ In CR p -> ~ In CR n ->
  _split_positive_negative uni_alnum (p ++ c :: of_string "Negative: " ++ n)
  = (strip p, strip n).
Proof.
  intros Hsc Hc Hccr Hp Hn Hcp Hcn.
  destruct (working_prefix p c Hsc Hc Hp) as (HP & Hword & HsP).
  assert (HQ : colon_free (rstrip (32 :: n))) by (apply colon_free_rstrip, Hn).
  assert (Et : p ++ c :: of_string "Negative: " ++ n
               = (p ++ [c]) ++ of_string "Negative: " ++ n)
    by (now rewrite <- app_assoc).
  rewrite <- HsP, <- (strip_blank_head n).
  apply split_via_working; try assumption.
  - destruct p; discriminate.
  - rewrite Et, replace_crlf_id, strip_negative_line.
    + rewrite (search_matchless _ _ (prompt_label_absent uni_alnum _ _ HP HQ)).
      reflexivity.
    + apply no_cr_negative_line; [|exact Hcn].
      intros H. apply in_app_or in H. destruct H as [H|H]; [now apply Hcp|].
      simpl in H. destruct H as [H|[]]. now apply Hccr.
Qed.

(** *** The prompt label in front *)

Lemma prompt_label_at_label L colon X :
  In L positive_labels_written -> is_colon colon = true ->
  match_here uni_alnum prompt_label_re None (L ++ colon :: X)
  = Some (lstrip X).
Proof.
  intros HL Hc. simpl in HL.
  repeat (destruct HL as [<-|HL];
          [unfold match_here; simpl;
           rewrite ?(is_colon_not_space _ Hc), ?Hc; simpl;
           change (fun (p' : option cp) (s' : text) => accept p' s') with accept;
           rewrite ?star_loop_accept; reflexivity|]).
  contradiction.
Qed.

Lemma search_prompt_at_start L colon X :
  In L positive_labels_written -> is_colon colon = true ->
  exists e,
    search uni_alnum prompt_label_re (L ++ colon :: X) = Some (0%nat, e)
    /\ skipn e (L ++ colon :: X) = lstrip X.
Proof.
  intros HL Hc. pose proof (prompt_label_at_label L colon X HL Hc) as Hm.
  destruct (lstrip_split X) as (sp & EX & _).
  assert (E : L ++ colon :: X = (L ++ colon :: sp) ++ lstrip X)
    by (rewrite <- app_assoc; simpl; now rewrite <- EX).
  rewrite E in Hm |- *. unfold search.
  rewrite (search_from_hit _ _ _ _ _ _ Hm).
  eexists. split; [reflexivity|]. now apply skipn_app_exact.
Qed.

Lemma written_label_clean L :
  In L positive_labels_written -> L <> [] /\ starts_clean L /\ ~ In CR L.
Proof.
  intros HL. simpl in HL.
  repeat (destruct HL as [<-|HL];
          [split; [discriminate | split; [reflexivity |
             simpl; intuition discriminate]]|]).
  contradiction.
Qed.

Lemma split_body t :
  t <> [] ->
  _split_positive_negative uni_alnum t
  = let s := strip (replace_crlf t) in
    let s :=
      match search uni_alnum prompt_label_re s with
      | Some (_, e) => lstrip (skipn e s)
      | None => s
      end in
    let '(pos, neg) :=
      match search uni_alnum neg_re s with
      | Some (b, e) => (strip (firstn b s), strip (skipn e s))
      | None => (strip s, [])
      end in
    (strip (sub uni_alnum pos_cleanup_re pos),
     strip (sub uni_alnum neg_cleanup_re neg)).
Proof. destruct t; [congruence | reflexivity]. Qed.

(** X20: a text that starts with a positive label and its colon, with no
    other colon and no carriage return, loses the label: the positive
    component is the rest of the text, stripped, and the negative component
    is empty. *)
Theorem split_positive_label_only L colon b :
  In L positive_labels_written -> is_colon colon = true ->
  colon_free b -> ~ In CR b ->
  _split_positive_negative uni_alnum (L ++ colon :: b) = (strip b, []).
Proof.
  intros HL Hc Hb Hcb.
  destruct (written_label_clean L HL) as (HLne & HLclean & HLcr).
  rewrite split_body by (destruct L; [congruence | discriminate]).
  assert (Hcr : replace_crlf (L ++ colon :: b) = L ++ colon :: b).
  { apply replace_crlf_id. intros H. apply in_app_or in H.
    destruct H as [H|[H|H]]; [now apply HLcr | subst colon; discriminate Hc
                              | now apply Hcb]. }
  assert (Hs : strip (L ++ colon :: b) = L ++ colon :: rstrip b).
  { unfold strip. rewrite lstrip_app_clean by assumption.
    apply rstrip_after_clean. now apply is_colon_not_space. }
  rewrite Hcr, Hs. cbv zeta.
  destruct (search_prompt_at_start L colon (rstrip b) HL Hc) as (e & -> & ->).
  assert (Hw : colon_free (lstrip (lstrip (rstrip b))))
    by (now apply colon_free_lstrip, colon_free_lstrip, colon_free_rstrip).
  rewrite (search_colon_free _ _ _ (reads_colon_neg _) Hw).
  rewrite (sub_colon_free _ _ _ (reads_colon_pos_cleanup _)
             (colon_free_strip _ Hw)).
  rewrite strip_strip, !strip_lstrip, strip_rstrip. reflexivity.
Qed.

(** X21: the format the node asks the model for: a positive label with
    its colon, the positive text, a white space character (the newline of
    the two-line format, or a blank) and ["Negative: "] with the negative
    text give the two texts, stripped, when these hold no colon and no
    carriage return. *)
Theorem split_two_lines L colon p n (c : cp) :
  In L positive_labels_written -> is_colon colon = true ->
  isspace c = true -> c < 128 -> c <> CR ->
  colon_free p -> colon_free n -> ~ In CR p -> ~ In CR n ->
  _split_positive_negative uni_alnum
    (L ++ colon :: p ++ c :: of_string "Negative: " ++ n)
  = (strip p, strip n).
Proof.
  intros HL Hc Hsc Hc128 Hccr Hp Hn Hcp Hcn.
  destruct (written_label_clean L HL) as (HLne & HLclean & HLcr).
  destruct (working_prefix p c Hsc Hc128 Hp) as (HP & Hword & HsP).
  assert (HQ : colon_free (rstrip (32 :: n))) by (apply colon_free_rstrip, Hn).
  assert (Et : L ++ colon :: p ++ c :: of_string "Negative: " ++ n
               = (L ++ colon :: p ++ [c]) ++ of_string "Negative: " ++ n).
  { rewrite <- app_assoc. simpl. now rewrite <- app_assoc. }
  assert (Hcr : ~ In CR (L ++ colon :: p ++ [c])).
  { intros H. apply in_app_or in H.
    destruct H as [H|[H|H]]; [now apply HLcr | subst colon; discriminate Hc|].
    apply in_app_or in H. destruct H as [H|H]; [now apply Hcp|].
    simpl in H. destruct H as [H|[]]. now apply Hccr. }
  rewrite <- HsP, <- (strip_blank_head n).
  apply split_via_working; try assumption.
  - destruct L; [congruence | discriminate].
  - rewrite Et, replace_crlf_id by (now apply no_cr_negative_line).
    rewrite strip_negative_line.
    rewrite lstrip_app_clean by assumption.
    assert (E : (L ++ colon :: p ++ [c])
                  ++ of_string "Negative" ++ COLON :: rstrip (32 :: n)
                = L ++ colon :: (p ++ [c])
                    ++ 78 :: of_string "egative" ++ COLON :: rstrip (32 :: n)).
    { rewrite <- app_assoc. simpl. reflexivity. }
    rewrite E.
    destruct (search_prompt_at_start L colon
                ((p ++ [c]) ++ 78 :: of_string "egative" ++ COLON
                   :: rstrip (32 :: n)) HL Hc) as (e & -> & ->).
    rewrite lstrip_before_clean by reflexivity.
    rewrite lstrip_before_clean by reflexivity.
    rewrite (lstrip_clean _ (starts_clean_lstrip _)). reflexivity.
Qed.

End SplitterMore.

(** ** Line endings *)

Lemma replace_crlf_cons c tl :
  c <> CR -> replace_crlf (c :: tl) = c :: replace_crlf tl.
Proof.
  intros Hc. apply N.eqb_neq in Hc. destruct tl as [|d tl]; simpl.
  - reflexivity.
  - now rewrite Hc.
Qed.

Lemma replace_crlf_to_crlf t : ~ In CR t -> replace_crlf (to_crlf t) = t.
Proof.
  induction t as [|c t IH]; intros H; [reflexivity|].
  simpl in H. unfold to_crlf. simpl flat_map. fold (to_crlf t).
  destruct (N.eqb_spec c LF) as [->|Hc].
  - change ([CR; LF] ++ to_crlf t) with (CR :: LF :: to_crlf t).
    change (replace_crlf (CR :: LF :: to_crlf t))
      with (LF :: replace_crlf (to_crlf t)).
    rewrite IH by tauto. reflexivity.
  - change ([c] ++ to_crlf t) with (c :: to_crlf t).
    rewrite replace_crlf_cons by (intros ->; tauto).
    rewrite IH by tauto. reflexivity.
Qed.

(** X22: line endings do not matter: for a text without carriage return,
    writing every newline as CR LF changes neither the result of the
    splitter nor that of the sanitizer. *)
Theorem crlf_line_endings (uni_alnum : cp -> bool) (t : text) :
  ~ In CR t ->
  _split_positive_negative uni_alnum (to_crlf t)
  = _split_positive_negative uni_alnum t
  /\ _sanitize_reasoning_text uni_alnum (to_crlf t)
     = _sanitize_reasoning_text uni_alnum t.
Proof.
  intros H. split.
  - destruct t as [|c t]; [reflexivity|].
    rewrite (split_body uni_alnum (c :: t)) by discriminate.
    rewrite (split_body uni_alnum (to_crlf (c :: t))).
    + now rewrite replace_crlf_to_crlf, replace_crlf_id.
    + unfold to_crlf. simpl. destruct (c =? LF); discriminate.
  - unfold _sanitize_reasoning_text.
    now rewrite replace_crlf_to_crlf, replace_crlf_id.
Qed.
(** * Instances at concrete inputs *)

Lemma extract_text_from_content_spec_witness :
  _extract_text_from_content (fun _ => None) (JInt 5) = [].
Proof.
  apply (extract_text_from_content_spec (fun _ => None));
    [reflexivity | discriminate | discriminate | discriminate].
Defined.

Lemma ask_parse_failure_paths_witness :
  ask_parse (fun _ => false) (fun _ => Some (of_string "{}"))
            (fun _ => of_string "{}") (fun _ => of_string "Expecting value")
            "content_only" (of_string "0.10s") resp_500
  = ([], [], of_string "[OpenAIAsk] HTTP 500: {}", of_string "{}")
  /\ ask_parse (fun _ => false) (fun _ => Some (of_string "{}"))
            (fun _ => of_string "{}") (fun _ => of_string "Expecting value")
            "content_only" (of_string "0.10s") resp_garbled
  = ([], [],
     of_string "[OpenAIAsk] parse error: Expecting value"
       ++ LF :: of_string "HTTP 200 Body: <html>",
     of_string "<html>").
Proof.
  split.
  - apply (proj1 (ask_parse_failure_paths (fun _ => false)
                    (fun _ => Some (of_string "{}")) (fun _ => of_string "{}")
                    (fun _ => of_string "Expecting value")
                    "content_only" (of_string "0.10s") resp_500)
             (JObj []) (of_string "{}"));
      [reflexivity | simpl; lia | reflexivity].
  - apply (proj1 (proj2 (ask_parse_failure_paths (fun _ => false)
                    (fun _ => Some (of_string "{}")) (fun _ => of_string "{}")
                    (fun _ => of_string "Expecting value")
                    "content_only" (of_string "0.10s") resp_garbled))
             JSONDecodeError).
    reflexivity.
Defined.


Lemma split_examples_and_negative_only_witness :
  _split_positive_negative cjk_alnum (of_string "Avoid: blur")
  = (strip (sub cjk_alnum pos_cleanup_re
              (strip (firstn 0 (strip (replace_crlf (of_string "Avoid: blur")))))),
     strip (sub cjk_alnum neg_cleanup_re
              (strip (skipn 7 (strip (replace_crlf (of_string "Avoid: blur"))))))).
Proof.
  apply (proj2 (proj2 (proj2 (proj2 (proj2
           (split_examples_and_negative_only cjk_alnum)))))
           (of_string "Avoid: blur") 0%nat 7%nat);
    reflexivity.
Defined.

Lemma split_needs_colon_witness :
  _split_positive_negative cjk_alnum (of_string "Prompt a cat")
  = (strip (replace_crlf (of_string "Prompt a cat")), []).
Proof.
  apply (split_needs_colon cjk_alnum (of_string "Prompt a cat")).
  reflexivity.
Defined.

(** C2, as stated, fails: without colon the positive label is not
    discarded and the text is not split at the negative label. *)
Lemma split_label_without_colon :
  _split_positive_negative cjk_alnum
    (of_string "Prompt a cat" ++ LF :: of_string "Negative a dog")
  = (of_string "Prompt a cat" ++ LF :: of_string "Negative a dog", [])
  /\ _split_positive_negative cjk_alnum
       (of_string "Prompt a cat" ++ LF :: of_string "Negative a dog")
     <> (of_string "a cat", of_string "a dog").
Proof. split; vm_compute; [reflexivity | discriminate]. Qed.






Lemma split_roundtrip_plain_witness :
  _split_positive_negative cjk_alnum
    (of_string "cat" ++ LF :: of_string "Negative: " ++ of_string "dog")
  = (of_string "cat", of_string "dog").
Proof.
  apply (split_roundtrip_plain cjk_alnum (of_string "cat Negative: dog")
           (of_string "cat") (of_string "dog")).
  - reflexivity.
  - discriminate.
  - reflexivity.
  - reflexivity.
  - simpl. intuition discriminate.
  - simpl. intuition discriminate.
Defined.

(** C5, as stated, fails: with the negative label repeated, the negative
    component still begins with a label, which the second split deletes. *)
Lemma split_roundtrip_repeated_label :
  _split_positive_negative cjk_alnum
    (of_string "cat Negative: Negative: Negative: dog")
  = (of_string "cat", of_string "Negative: dog")
  /\ of_string "Negative: dog" <> []
  /\ _split_positive_negative cjk_alnum
       (of_string "cat" ++ LF :: of_string "Negative: "
          ++ of_string "Negative: dog")
     = (of_string "cat", of_string "dog")
  /\ _split_positive_negative cjk_alnum
       (of_string "cat" ++ LF :: of_string "Negative: "
          ++ of_string "Negative: dog")
     <> (of_string "cat", of_string "Negative: dog").
Proof.
  split; [vm_compute; reflexivity|]. split; [discriminate|].
  split; vm_compute; [reflexivity | discriminate].
Qed.

(** * Instances of the further properties *)

Lemma request_url_slashes_witness :
  request_url (of_string "http://127.0.0.1:10000" ++ repeat SLASH 2)
              (of_string "v1/chat/completions")
  = of_string "http://127.0.0.1:10000/v1/chat/completions".
Proof.
  apply (proj1 (request_url_slashes (of_string "http://127.0.0.1:10000")
                  (of_string "v1/chat/completions") 2 eq_refl)).
Defined.

Lemma merge_headers_lookup_witness :
  dict_find (of_string "X-My-Header")
            (_merge_headers sample_loads (of_string "k") (of_string "{...}"))
  = Some (jstr "abc").
Proof.
  apply (merge_headers_lookup sample_loads (of_string "k") (of_string "{...}")
           (of_string "X-My-Header")).
  repeat constructor. simpl. tauto.
Defined.

Lemma merge_headers_keeps_base_witness :
  dict_find (of_string "Authorization")
            (_merge_headers sample_loads (of_string "k") (of_string "{...}"))
  <> None.
Proof.
  apply (proj2 (merge_headers_keeps_base sample_loads (of_string "k")
                  (of_string "{...}"))).
  discriminate.
Defined.

Lemma merge_headers_authorization_witness :
  dict_find (of_string "Authorization")
            (_merge_headers sample_loads (of_string "k") (of_string "{...}"))
  = Some (JStr (of_string "Bearer k")).
Proof.
  apply (merge_headers_authorization sample_loads (of_string "k")
           (of_string "{...}")).
  - repeat constructor. simpl. tauto.
  - reflexivity.
Defined.

Lemma ask_prompts_only_on_success_witness :
  exists resp top,
    @inr text response resp_ok = inr resp
    /\ resp_json resp = inr (JObj top)
    /\ (status_code resp < 400)%Z
    /\ truthy (choices_of top) = true
    /\ raw_of (ask_outputs cjk_alnum (fun _ => None) (fun _ => of_string "{}")
                           (fun _ => []) "content_only" (of_string "0.10s")
                           (inr resp_ok))
       = of_string "{}"
    /\ ends_with (latency (of_string "0.10s"))
         (answer_of (ask_outputs cjk_alnum (fun _ => None)
                                 (fun _ => of_string "{}") (fun _ => [])
                                 "content_only" (of_string "0.10s")
                                 (inr resp_ok))).
Proof.
  apply (ask_prompts_only_on_success cjk_alnum (fun _ => None)
           (fun _ => of_string "{}") (fun _ => []) "content_only"
           (of_string "0.10s") (inr resp_ok)).
  left. vm_compute. discriminate.
Defined.

Lemma ask_parse_non_object_witness :
  ask_parse cjk_alnum (fun _ => None) (fun _ => of_string "[]") (fun _ => [])
            "content_only" (of_string "0.10s") resp_list
  = ([], [], parse_error_text (fun _ => []) AttributeError resp_list,
     of_string "[]").
Proof.
  apply (ask_parse_non_object cjk_alnum (fun _ => None)
           (fun _ => of_string "[]") (fun _ => []) "content_only"
           (of_string "0.10s") resp_list (JArr [])).
  - reflexivity.
  - reflexivity.
  - discriminate.
Defined.

Lemma ask_parse_no_choices_witness :
  ask_parse cjk_alnum (fun _ => None) (fun _ => of_string "{}") (fun _ => [])
            "content_only" (of_string "0.10s") resp_no_choices
  = ([], [], empty_placeholder ++ latency (of_string "0.10s"), of_string "{}").
Proof.
  apply (ask_parse_no_choices cjk_alnum (fun _ => None)
           (fun _ => of_string "{}") (fun _ => []) "content_only"
           (of_string "0.10s") resp_no_choices []);
    reflexivity.
Defined.

Lemma ask_parse_content_witness :
  ask_parse cjk_alnum (fun _ => None) (fun _ => of_string "{}") (fun _ => [])
            "content_only" (of_string "0.10s") resp_ok
  = (fst (_split_positive_negative cjk_alnum sample_content),
     snd (_split_positive_negative cjk_alnum sample_content),
     (if nonempty (_sanitize_reasoning_text cjk_alnum sample_content)
      then _sanitize_reasoning_text cjk_alnum sample_content
      else empty_placeholder) ++ latency (of_string "0.10s"),
     of_string "{}").
Proof.
  apply (ask_parse_content cjk_alnum (fun _ => None) (fun _ => of_string "{}")
           (fun _ => []) "content_only" (of_string "0.10s") resp_ok sample_body
           [kv "message" (JObj [kv "content" (JStr sample_content)])] []
           [kv "content" (JStr sample_content)] sample_content).
  - now left.
  - reflexivity.
  - reflexivity.
  - reflexivity.
  - reflexivity.
  - reflexivity.
  - discriminate.
Defined.

Lemma select_source_other_policy_witness :
  select_source "AUTO" [] (of_string "R") (of_string "F")
  = first_nonempty [[]; of_string "R"; of_string "F"].
Proof.
  apply (select_source_other_policy "AUTO" [] (of_string "R") (of_string "F"));
    discriminate.
Defined.

Lemma extract_list_skips_non_mapping_witness :
  _extract_text_from_content (fun _ => None)
    (JArr ([JObj [kv "text" (jstr "A")]] ++ JInt 5 :: [JObj [kv "text" (jstr "B")]]))
  = _extract_text_from_content (fun _ => None)
      (JArr ([JObj [kv "text" (jstr "A")]] ++ [JObj [kv "text" (jstr "B")]])).
Proof.
  apply (extract_list_skips_non_mapping (fun _ => None)
           [JObj [kv "text" (jstr "A")]] [JObj [kv "text" (jstr "B")]] (JInt 5)).
  discriminate.
Defined.

Lemma sanitize_removes_user_label_witness :
  _sanitize_reasoning_text cjk_alnum (of_string "User" ++ COLON :: of_string " hello")
  = strip (of_string " hello").
Proof.
  apply (sanitize_removes_user_label cjk_alnum (of_string "User") COLON
           (of_string " hello")).
  - simpl. tauto.
  - reflexivity.
  - simpl. intuition discriminate.
Defined.

Lemma split_blank_text_witness :
  _split_positive_negative cjk_alnum [32; CR; LF; 9] = ([], []).
Proof. apply (split_blank_text cjk_alnum [32; CR; LF; 9]). reflexivity. Defined.

Lemma split_negative_line_witness :
  _split_positive_negative cjk_alnum
    (of_string "a cat " ++ LF :: of_string "Negative: " ++ of_string " a dog ")
  = (strip (of_string "a cat "), strip (of_string " a dog ")).
Proof.
  apply (split_negative_line cjk_alnum (of_string "a cat ") (of_string " a dog ")
           LF);
    try reflexivity; try discriminate; simpl; intuition discriminate.
Defined.

Lemma split_positive_label_only_witness :
  _split_positive_negative cjk_alnum
    (of_string "Prompt" ++ COLON :: of_string " a cat")
  = (strip (of_string " a cat"), []).
Proof.
  apply (split_positive_label_only cjk_alnum (of_string "Prompt") COLON
           (of_string " a cat")).
  - simpl. tauto.
  - reflexivity.
  - reflexivity.
  - simpl. intuition discriminate.
Defined.

Lemma split_two_lines_witness :
  _split_positive_negative cjk_alnum
    (of_string "Prompt" ++ COLON :: of_string " a cat"
       ++ LF :: of_string "Negative: " ++ of_string "a dog")
  = (strip (of_string " a cat"), strip (of_string "a dog")).
Proof.
  apply (split_two_lines cjk_alnum (of_string "Prompt") COLON
           (of_string " a cat") (of_string "a dog") LF).
  - simpl. tauto.
  - reflexivity.
  - reflexivity.
  - reflexivity.
  - discriminate.
  - reflexivity.
  - reflexivity.
  - simpl. intuition discriminate.
  - simpl. intuition discriminate.
Defined.

Lemma crlf_line_endings_witness :
  _split_positive_negative cjk_alnum (to_crlf sample_content)
  = _split_positive_negative cjk_alnum sample_content.
Proof.
  apply (proj1 (crlf_line_endings cjk_alnum sample_content
                  ltac:(simpl; intuition discriminate))).
Defined.
